(** * Exists.ts: the existential-subquery node of the Cypher builder

    A shallow embedding of [src/expressions/subquery/Exists.ts].  The class
    renders its subquery, pads it, and rewrites the padded text with six
    regular expressions.  JavaScript strings are sequences of UTF-16 code
    units, so a string is a list of code units here, and the regular
    expressions are values of a small syntax interpreted by a backtracking
    matcher that returns its successes in priority order. *)

From Stdlib Require Import Ascii String List NArith Arith Lia Bool.
Import ListNotations.

Set Implicit Arguments.

(** ** Strings *)

Definition char := N.
Definition str := list char.

Definition codes (s : string) : str :=
  map N_of_ascii (list_ascii_of_string s).

Definition TAB : char := 9%N.
Definition LF : char := 10%N.
Definition CR : char := 13%N.
Definition SPACE : char := 32%N.
Definition DOLLAR : char := 36%N.
Definition AMP : char := 38%N.
Definition QUOTE : char := 39%N.
Definition LPAREN : char := 40%N.
Definition RPAREN : char := 41%N.
Definition DOT : char := 46%N.
Definition COLON : char := 58%N.
Definition EQUALS : char := 61%N.
Definition UNDERSCORE : char := 95%N.
Definition BACKTICK : char := 96%N.

Definition str_eqb (a b : str) : bool :=
  if list_eq_dec N.eq_dec a b then true else false.

(** ** Character classes of ECMAScript regular expressions *)

Local Open Scope N_scope.

Definition in_range (lo hi c : char) : bool :=
  (N.leb lo c && N.leb c hi)%bool.

(** [\s]: WhiteSpace and LineTerminator code points. *)
Definition is_space (c : char) : bool :=
  in_range 9 13 c || N.eqb c 32 || N.eqb c 160 || N.eqb c 5760
  || in_range 8192 8202 c || N.eqb c 8232 || N.eqb c 8233
  || N.eqb c 8239 || N.eqb c 8287 || N.eqb c 12288 || N.eqb c 65279.

Definition is_digit (c : char) : bool := in_range 48 57 c.

(** [\w]: [A-Za-z0-9_]. *)
Definition is_word (c : char) : bool :=
  in_range 97 122 c || in_range 65 90 c || is_digit c || N.eqb c UNDERSCORE.

(** LineTerminator: LF, CR, LS, PS. *)
Definition is_line_terminator (c : char) : bool :=
  N.eqb c LF || N.eqb c CR || N.eqb c 8232 || N.eqb c 8233.

(** [.] without the [s] flag. *)
Definition is_dot (c : char) : bool := negb (is_line_terminator c).

Definition is_char (a : char) (c : char) : bool := N.eqb c a.

Definition is_not_char (a : char) (c : char) : bool := negb (N.eqb c a).

(** A pattern letter under the [i] flag (no [u] flag).  Canonicalize maps a
    code unit to its upper case unless that would turn a non-ASCII unit into
    an ASCII one, so an ASCII upper-case letter [a] is matched by itself and
    by [a + 32] only. *)
Definition is_char_i (a : char) (c : char) : bool :=
  N.eqb c a || N.eqb c (a + 32).

Local Close Scope N_scope.

(** ** Regular expressions *)

Inductive regex : Type :=
| Empty : regex
| CharSet : (char -> bool) -> regex
| Seq : regex -> regex -> regex
| Alt : regex -> regex -> regex
| Star : bool -> regex -> regex          (* [true]: greedy, [false]: lazy *)
| Group : nat -> regex -> regex
| LookAhead : regex -> regex
| AssertStart : regex                    (* [^], no [m] flag *)
| AssertEnd : regex.                     (* [$], no [m] flag *)

Definition seq (rs : list regex) : regex := fold_right Seq Empty rs.
Definition plus (greedy : bool) (r : regex) : regex := Seq r (Star greedy r).
Definition opt (r : regex) : regex := Alt r Empty.
Definition lit_i (s : str) : regex := seq (map (fun a => CharSet (is_char_i a)) s).

(** The matcher state: the index reached in the input, the input left from
    there, and the captures made so far (latest first). *)
Record MatchState : Type := mkState {
  endIndex : nat;
  rest : str;
  captures : list (nat * str)
}.

Fixpoint get_capture (i : nat) (caps : list (nat * str)) : option str :=
  match caps with
  | [] => None
  | (j, v) :: caps' => if Nat.eqb i j then Some v else get_capture i caps'
  end.

Definition set_capture (i : nat) (x y : MatchState) : MatchState :=
  mkState (endIndex y) (rest y)
          ((i, firstn (endIndex y - endIndex x) (rest x)) :: captures y).

(** RepeatMatcher with min 0 and no upper bound: an iteration that consumes
    nothing is rejected, so the input length bounds the iterations. *)
Fixpoint star_loop (greedy : bool) (step : MatchState -> list MatchState)
         (fuel : nat) (x : MatchState) : list MatchState :=
  match fuel with
  | O => [x]
  | S fuel' =>
      let again :=
        flat_map (fun y => if length (rest y) <? length (rest x)
                           then star_loop greedy step fuel' y else [])
                 (step x) in
      if greedy then again ++ [x] else x :: again
  end.

(** All ways [r] matches from state [x], in the order backtracking tries
    them. *)
Fixpoint matches (r : regex) (x : MatchState) : list MatchState :=
  match r with
  | Empty => [x]
  | CharSet p =>
      match rest x with
      | c :: t => if p c then [mkState (S (endIndex x)) t (captures x)] else []
      | [] => []
      end
  | Seq r1 r2 => flat_map (matches r2) (matches r1 x)
  | Alt r1 r2 => matches r1 x ++ matches r2 x
  | Star greedy r1 => star_loop greedy (matches r1) (S (length (rest x))) x
  | Group i r1 => map (set_capture i x) (matches r1 x)
  | LookAhead r1 =>
      match matches r1 x with
      | y :: _ => [mkState (endIndex x) (rest x) (captures y)]
      | [] => []
      end
  | AssertStart => if Nat.eqb (endIndex x) 0 then [x] else []
  | AssertEnd => match rest x with [] => [x] | _ :: _ => [] end
  end.

(** The match at a given index (a sticky match): the first success. *)
Definition match_at (r : regex) (i : nat) (s : str) : option MatchState :=
  hd_error (matches r (mkState i s [])).

(** RegExpBuiltinExec without [g] and [y]: the first index from [i] on at
    which the pattern matches; [s] is the input from index [i]. *)
Fixpoint exec_from (r : regex) (i : nat) (s : str) : option (nat * MatchState) :=
  match match_at r i s with
  | Some y => Some (i, y)
  | None =>
      match s with
      | [] => None
      | _ :: t => exec_from r (S i) t
      end
  end.

Definition exec (r : regex) (s : str) : option (nat * MatchState) :=
  exec_from r 0 s.

(** ** String.prototype.replace *)

(** GetSubstitution, for a pattern with [m] capture groups and no named
    groups. *)
Fixpoint getSubstitution (matched before after : str)
         (caps : list (nat * str)) (m : nat) (template : str) : str :=
  match template with
  | [] => []
  | c :: t =>
      if negb (N.eqb c DOLLAR) then
        c :: getSubstitution matched before after caps m t
      else
        match t with
        | [] => [DOLLAR]
        | d :: t' =>
            if N.eqb d DOLLAR then
              DOLLAR :: getSubstitution matched before after caps m t'
            else if N.eqb d AMP then
              matched ++ getSubstitution matched before after caps m t'
            else if N.eqb d BACKTICK then
              before ++ getSubstitution matched before after caps m t'
            else if N.eqb d QUOTE then
              after ++ getSubstitution matched before after caps m t'
            else if is_digit d then
              let one := N.to_nat (d - 48)%N in
              let single :=
                if (1 <=? one) && (one <=? m) then
                  match get_capture one caps with
                  | Some v => v
                  | None => []
                  end ++ getSubstitution matched before after caps m t'
                else DOLLAR :: getSubstitution matched before after caps m t in
              match t' with
              | d2 :: t'' =>
                  if is_digit d2 then
                    let two := 10 * one + N.to_nat (d2 - 48)%N in
                    if two <=? m then
                      if 1 <=? two then
                        match get_capture two caps with
                        | Some v => v
                        | None => []
                        end ++ getSubstitution matched before after caps m t''
                      else DOLLAR :: getSubstitution matched before after caps m t
                    else single
                  else single
              | [] => single
              end
            else DOLLAR :: getSubstitution matched before after caps m t
        end
  end.

(** Number of capture groups of a pattern. *)
Fixpoint groups (r : regex) : nat :=
  match r with
  | Seq r1 r2 | Alt r1 r2 => groups r1 + groups r2
  | Star _ r1 | LookAhead r1 => groups r1
  | Group _ r1 => S (groups r1)
  | _ => 0
  end.

(** The replacement for a match that starts at index [i] of [whole] and ends
    in state [y]. *)
Definition substitute (r : regex) (template whole : str) (i : nat)
           (y : MatchState) : str :=
  getSubstitution (firstn (endIndex y - i) (skipn i whole))
                  (firstn i whole) (rest y) (captures y) (groups r) template.

(** [s.replace(r, template)] for a pattern without the [g] flag. *)
Definition replace (r : regex) (template : str) (s : str) : str :=
  match exec r s with
  | None => s
  | Some (i, y) => firstn i s ++ substitute r template s i y ++ rest y
  end.

(** [s.replace(r, template)] for a pattern with the [g] flag: the input is
    scanned from [lastIndex]; after an empty match the index advances by one
    code unit.  [s] is the input from index [i] of [whole]. *)
Fixpoint replace_all_from (fuel : nat) (r : regex) (template whole : str)
         (i : nat) (s : str) : str :=
  match fuel with
  | O => s
  | S fuel' =>
      match exec_from r i s with
      | None => s
      | Some (j, y) =>
          firstn (j - i) s ++ substitute r template whole j y ++
          (if Nat.eqb (endIndex y) j then
             match rest y with
             | [] => []
             | c :: t => c :: replace_all_from fuel' r template whole (S j) t
             end
           else replace_all_from fuel' r template whole (endIndex y) (rest y))
      end
  end.

Definition replace_all (r : regex) (template : str) (s : str) : str :=
  replace_all_from (S (length s)) r template s 0 s.

(** ** String.prototype.split *)

(** [s.split(r)] for a pattern without capture groups.  [piece] is the text
    of the input between the end of the last separator ([p]) and the index
    under test ([q]); [s] is the input from [q].  A match that ends where the
    last separator ended is skipped. *)
Fixpoint split_loop (fuel : nat) (r : regex) (piece : str) (q : nat) (s : str)
  : list str :=
  match fuel with
  | O => [piece ++ s]
  | S fuel' =>
      match s with
      | [] => [piece]
      | c :: t =>
          match match_at r q s with
          | None => split_loop fuel' r (piece ++ [c]) (S q) t
          | Some y =>
              if Nat.eqb (endIndex y) q && Nat.eqb (length piece) 0
              then split_loop fuel' r (piece ++ [c]) (S q) t
              else piece :: split_loop fuel' r [] (endIndex y) (rest y)
          end
      end
  end.

Definition split (r : regex) (s : str) : list str :=
  match s with
  | [] => match match_at r 0 [] with Some _ => [] | None => [[]] end
  | _ :: _ => split_loop (2 * length s + 1) r [] 0 s
  end.

(** [s.split(sep)] for a one-character string separator. *)
Fixpoint split_on (sep : char) (s : str) : list str :=
  match s with
  | [] => [[]]
  | c :: t =>
      if N.eqb c sep then [] :: split_on sep t
      else match split_on sep t with
           | h :: l => (c :: h) :: l
           | [] => [[c]]
           end
  end.

(** [Array.prototype.pop]: the last element, [undefined] on an empty array. *)
Definition pop (l : list str) : option str :=
  match rev l with
  | [] => None
  | x :: _ => Some x
  end.

(** [Array.prototype.join]. *)
Fixpoint join (sep : str) (l : list str) : str :=
  match l with
  | [] => []
  | [x] => x
  | x :: l' => x ++ sep ++ join sep l'
  end.

(** ** The utility [padBlock] *)

(** Modelled from the spec: [utils/pad-block] is not among the sources.  The
    spec has it indent every line of the text by one block level, a fixed
    prefix such as a tab: a tab is put in front of the text and after every
    line feed. *)
Definition padBlock (block : str) : str :=
  TAB :: flat_map (fun c => if N.eqb c LF then [LF; TAB] else [c]) block.

(** ** The class [Exists] *)

(** The regular expressions of [transformCypherQuery]. *)

(** [/^\s*MATCH\s+/i] *)
Definition matchRegEx : regex :=
  seq [AssertStart; Star true (CharSet is_space); lit_i (codes "MATCH");
       plus true (CharSet is_space)].

(** [/WHERE\s+\(?(.*?)\)?$/i] *)
Definition whereRegEx : regex :=
  seq [lit_i (codes "WHERE"); plus true (CharSet is_space);
       opt (CharSet (is_char LPAREN));
       Group 1 (Star false (CharSet is_dot));
       opt (CharSet (is_char RPAREN)); AssertEnd].

(** [/\s+AND\s+/i] *)
Definition andRegEx : regex :=
  seq [plus true (CharSet is_space); lit_i (codes "AND");
       plus true (CharSet is_space)].

(** [/\s*=\s*/] *)
Definition equalsRegEx : regex :=
  seq [Star true (CharSet is_space); CharSet (is_char EQUALS);
       Star true (CharSet is_space)].

(** [/:(\w+|`[^`]+`)\s*(?=\))/] *)
Definition labelRegEx : regex :=
  seq [CharSet (is_char COLON);
       Group 1 (Alt (plus true (CharSet is_word))
                    (seq [CharSet (is_char BACKTICK);
                          plus true (CharSet (is_not_char BACKTICK));
                          CharSet (is_char BACKTICK)]));
       Star true (CharSet is_space);
       LookAhead (CharSet (is_char RPAREN))].

(** [/\(\w+(:)/g] *)
Definition variableRegEx : regex :=
  seq [CharSet (is_char LPAREN); plus true (CharSet is_word);
       Group 1 (CharSet (is_char COLON))].

(** A thrown [Error] with its message. *)
Inductive exception : Type :=
| Error : string -> exception.

(** [CypherCondition]: an object with string keys, as the list of its own
    properties in insertion order. *)
Definition CypherCondition := list (str * str).

Definition object_keys (o : CypherCondition) : list str := map fst o.

Fixpoint object_get (key : str) (o : CypherCondition) : option str :=
  match o with
  | [] => None
  | (k, v) :: o' => if str_eqb key k then Some v else object_get key o'
  end.

(** A value that may be [undefined], used as a property key or inside a
    template literal. *)
Definition to_string (v : option str) : str :=
  match v with
  | Some s => s
  | None => codes "undefined"
  end.

(** Lines 70-75, the body of the first [map]: one condition to an object
    with one property. *)
Definition parseCondition (condition : str) : CypherCondition :=
  let parts := split equalsRegEx condition in
  let key := match nth_error parts 0 with Some k => k | None => [] end in
  let value := match nth_error parts 1 with Some v => v | None => [] end in
  let strippedKey := pop (split_on DOT key) in
  [(to_string strippedKey, value)].

Definition parseConditions (whereText : str) : list CypherCondition :=
  map parseCondition (split andRegEx whereText).

(** Lines 78-85, the body of the second [map]. *)
Definition propertyEntry (cond : CypherCondition) : str :=
  match object_keys cond with
  | [] => []
  | key :: _ => key ++ codes ": " ++ to_string (object_get key cond)
  end.

Definition propertiesOf (conditions : list CypherCondition) : str :=
  join (codes ", ") (map propertyEntry conditions).

(** Line 60. *)
Definition stripMatch (cypherFragment : str) : str :=
  replace matchRegEx [] cypherFragment.

(** Lines 88-90: the WHERE clause is dropped and the properties are put
    after the first label that stands before a closing parenthesis. *)
Definition injectProperties (properties : str) (pattern : str) : str :=
  replace labelRegEx (codes "$& { " ++ properties ++ codes " }") pattern.

(** Line 93. *)
Definition removeVariableNames (transformed : str) : str :=
  replace_all variableRegEx (codes "($1") transformed.

Definition transformCypherQuery (cypherFragment : str) : str + exception :=
  let strippedMatch := stripMatch cypherFragment in
  match exec whereRegEx strippedMatch with
  | None => inr (Error "No WHERE clause found.")
  | Some (_, whereMatch) =>
      match get_capture 1 (captures whereMatch) with
      | None | Some [] => inr (Error "No WHERE clause found.")
      | Some whereText =>
          let conditions := parseConditions whereText in
          let properties := propertiesOf conditions in
          let transformed :=
            injectProperties properties (replace whereRegEx [] strippedMatch) in
          inl (removeVariableNames transformed)
      end
  end.

(** [getCypher], from the text the subquery renders to. *)
Definition getCypher (subQueryStr : str) : str :=
  let paddedSubQuery := padBlock subQueryStr in
  match transformCypherQuery paddedSubQuery with
  | inl transformedSubQuery =>
      codes "EXISTS (" ++ [LF] ++ transformedSubQuery ++ [LF] ++ codes ")"
  | inr _ =>
      codes "EXISTS {" ++ [LF] ++ paddedSubQuery ++ [LF] ++ codes ")"
  end.

(** ** Vocabulary of the statements *)

(** [s] begins with characters that satisfy the predicates [ps], one each. *)
Fixpoint starts_with (ps : list (char -> bool)) (s : str) : bool :=
  match ps with
  | [] => true
  | p :: ps' =>
      match s with
      | [] => false
      | c :: t => p c && starts_with ps' t
      end
  end.

(** Some suffix of [s] begins with [ps]. *)
Fixpoint occurs (ps : list (char -> bool)) (s : str) : bool :=
  starts_with ps s ||
  match s with
  | [] => false
  | _ :: t => occurs ps t
  end.

(** The keyword WHERE in any letter case, followed by white space. *)
Definition where_keyword : list (char -> bool) :=
  map is_char_i (codes "WHERE") ++ [is_space].


(** The state [k] code units further on. *)
Definition advance (x : MatchState) (k : nat) : MatchState :=
  mkState (endIndex x + k) (skipn k (rest x)) (captures x).

(** [y] is [k] code units after [x] in the same input. *)
Definition reaches (x y : MatchState) (k : nat) : Prop :=
  endIndex y = endIndex x + k /\ rest y = skipn k (rest x)
  /\ k <= length (rest x).

(** Length of the longest prefix of [s] inside the class [p]. *)
Fixpoint run (p : char -> bool) (s : str) : nat :=
  match s with
  | [] => 0
  | c :: t => if p c then S (run p t) else 0
  end.

(** What follows the keyword in [whereRegEx]: [\(?(.*?)\)?$]. *)
Definition whereTail : regex :=
  seq [opt (CharSet (is_char LPAREN)); Group 1 (Star false (CharSet is_dot));
       opt (CharSet (is_char RPAREN)); AssertEnd].

(** The end of [whereRegEx]: [\)?$]. *)
Definition closeAtEnd : regex :=
  seq [opt (CharSet (is_char RPAREN)); AssertEnd].

(** The text with one closing parenthesis at its end left out. *)
Fixpoint dropClose (r : str) : str :=
  match r with
  | [] => []
  | c :: t =>
      match t with
      | [] => if N.eqb c RPAREN then [] else [c]
      | _ :: _ => c :: dropClose t
      end
  end.

(** The text with one opening parenthesis in front left out. *)
Definition dropOpen (r : str) : str :=
  match r with
  | [] => []
  | c :: t => if N.eqb c LPAREN then t else r
  end.

(** The condition text of a line [r] that follows WHERE and its white space:
    what [whereTail] captures. *)
Definition conditionText (r : str) : str := dropClose (dropOpen r).

(** The condition text that a WHERE keyword at the head of [s] introduces:
    the text after the white space, when it runs to the end of [s] with no
    line terminator. *)
Definition whereCondition (s : str) : option str :=
  if starts_with where_keyword s then
    let r := skipn (5 + run is_space (skipn 5 s)) s in
    if forallb is_dot r then Some (conditionText r) else None
  else None.

(** Length of the separator that [andRegEx] matches at the head of [s]:
    white space, AND in any letter case, white space. *)
Definition andSeparator (s : str) : option nat :=
  let n := run is_space s in
  let t := skipn n s in
  if starts_with [is_space] s
     && starts_with (map is_char_i (codes "AND")) t
     && starts_with [is_space] (skipn 3 t)
  then Some (n + (3 + run is_space (skipn 3 t))) else None.

(** Length of the separator that [equalsRegEx] matches at the head of [s]:
    an equals sign with the white space around it. *)
Definition equalsSeparator (s : str) : option nat :=
  let n := run is_space s in
  if starts_with [is_char EQUALS] (skipn n s)
  then Some (n + (1 + run is_space (skipn (n + 1) s))) else None.

(** Length of the text that [variableRegEx] matches at the head of [s]: an
    opening parenthesis, a name of word characters, a colon. *)
Definition variableReference (s : str) : option nat :=
  let m := run is_word (skipn 1 s) in
  if starts_with [is_char LPAREN] s && (1 <=? m)
     && starts_with [is_char COLON] (skipn (1 + m) s)
  then Some (1 + m + 1) else None.

(** The label that [labelRegEx] matches at the head of [s], and the length
    of the whole match: a colon, a label of word characters or between
    backticks, white space, all of it in front of a closing parenthesis.  The
    result is the length of the label and the length of the match. *)
Definition labelMarker (s : str) : option (nat * nat) :=
  let t := skipn 1 s in
  let m := run is_word t in
  let b := run (is_not_char BACKTICK) (skipn 1 t) in
  let label :=
    if 1 <=? m then Some m
    else if starts_with [is_char BACKTICK] t && (1 <=? b)
            && starts_with [is_char BACKTICK] (skipn (1 + b) t)
         then Some (1 + b + 1) else None in
  if starts_with [is_char COLON] s then
    match label with
    | Some l =>
        let j := run is_space (skipn l t) in
        if starts_with [is_char RPAREN] (skipn (l + j) t)
        then Some (l, 1 + (l + j)) else None
    | None => None
    end
  else None.

(** The matcher [sep] finds nothing at the positions inside [a], when [a]
    stands in front of [t]. *)
Definition quiet (A : Type) (sep : str -> option A) (a t : str) : Prop :=
  forall k, k < length a -> sep (skipn k a ++ t) = None.

(** Neither white space nor an equals sign. *)
Definition is_plain (c : char) : bool :=
  negb (is_space c) && is_not_char EQUALS c.

(** A character of a property name: plain and not a dot. *)
Definition is_name (c : char) : bool := is_plain c && is_not_char DOT c.

(** The word AND alone, in any letter case. *)
Definition is_and (v : str) : bool :=
  starts_with (map is_char_i (codes "AND")) v && (length v =? 3).

(** An equality condition [alias.name = value], with the white space that
    stands in front of and behind the equals sign. *)
Record Equality : Type := mkEquality {
  alias : str;
  name : str;
  before_equals : str;
  after_equals : str;
  value : str
}.

Definition equalityText (e : Equality) : str :=
  alias e ++ [DOT] ++ name e ++ before_equals e ++ [EQUALS]
  ++ after_equals e ++ value e.

(** The alias and the property name hold no white space and no equals sign,
    the name no dot; around the equals sign stands white space only; the
    value is a non-empty text without white space and equals sign, other
    than the word AND. *)
Definition well_formed (e : Equality) : bool :=
  forallb is_plain (alias e) && forallb is_name (name e)
  && forallb is_space (before_equals e) && forallb is_space (after_equals e)
  && forallb is_plain (value e) && negb (is_and (value e))
  && (1 <=? length (value e)).

(** The whole of [sp] is white space, the word AND in any letter case, and
    white space. *)
Definition is_and_separator (sp : str) : bool :=
  match andSeparator sp with
  | Some len => len =? length sp
  | None => false
  end.

(** Pieces with the separators between them, as one text. *)
Fixpoint joined (p : str) (more : list (str * str)) : str :=
  p ++ match more with
       | [] => []
       | (sp, p') :: more' => sp ++ joined p' more'
       end.

(** The conditions of a WHERE clause with the AND separators between
    them. *)
Definition conjunction (e : Equality) (more : list (str * Equality)) : str :=
  joined (equalityText e)
         (map (fun x => (fst x, equalityText (snd x))) more).

Definition propertyText (e : Equality) : str :=
  name e ++ codes ": " ++ value e.

Definition condition_ok (p : str) : Prop :=
  exists e, p = equalityText e /\ well_formed e = true.

(** The characters that make a replacement pattern after a dollar sign. *)
Definition is_special (c : char) : bool :=
  N.eqb c DOLLAR || N.eqb c AMP || N.eqb c BACKTICK || N.eqb c QUOTE
  || is_digit c.


(** A template in which no dollar sign starts a replacement pattern. *)
Fixpoint plain_template (t : str) : bool :=
  match t with
  | [] => true
  | c :: t' =>
      (if N.eqb c DOLLAR
       then match t' with
            | [] => true
            | d :: _ => negb (is_special d)
            end
       else true)
      && plain_template t'
  end.

(** Every [(name:] of word characters loses its name: the text with the
    names dropped, [skip] characters of it being part of a name already
    seen. *)
Fixpoint dropNames (skip : nat) (s : str) : str :=
  match s with
  | [] => []
  | c :: t =>
      match skip with
      | S k => dropNames k t
      | O =>
          match variableReference s with
          | Some len => LPAREN :: COLON :: dropNames (len - 1) t
          | None => c :: dropNames 0 t
          end
      end
  end.

(** Somewhere in [s] a WHERE keyword introduces a condition text that is
    not empty. *)
Fixpoint whereClause (s : str) : bool :=
  match whereCondition s with
  | Some (_ :: _) => true
  | _ => false
  end
  || match s with
     | [] => false
     | _ :: t => whereClause t
     end.

(** The rewrite throws on the fragment [s] left after MATCH was stripped,
    seen from index [i]. *)
Definition throws_from (i : nat) (s : str) : bool :=
  match exec_from whereRegEx i s with
  | None => true
  | Some (_, whereMatch) =>
      match get_capture 1 (captures whereMatch) with
      | None | Some [] => true
      | Some (_ :: _) => false
      end
  end.

(** Length of what [matchRegEx] matches at the start of [s]: white space,
    MATCH in any letter case, white space. *)
Definition matchPrefix (s : str) : option nat :=
  let n := run is_space s in
  if starts_with (map is_char_i (codes "MATCH")) (skipn n s)
     && starts_with [is_space] (skipn (n + 5) s)
  then Some (n + (5 + run is_space (skipn (n + 5) s))) else None.

Definition fallback (paddedSubQuery : str) : str :=
  codes "EXISTS {" ++ [LF] ++ paddedSubQuery ++ [LF] ++ codes ")".

Definition noWhereClause : str + exception :=
  inr (Error "No WHERE clause found.").

(** [w] spells the keyword [k], given in capitals, in some letter case. *)
Definition spells (k w : str) : bool :=
  starts_with (map is_char_i k) w && (length w =? length k).

(** White space, at least one character of it. *)
Definition is_white (ws : str) : bool :=
  forallb is_space ws && (1 <=? length ws).

(** A fragment read as [MATCH pattern WHERE condition]: the white space in
    front of MATCH, the keyword, the white space behind it, the pattern up to
    the keyword WHERE, that keyword, the white space behind it and the rest
    of the text. *)
Record MatchWhere : Type := mkMatchWhere {
  indentation : str;
  matchWord : str;
  matchSpace : str;
  patternPart : str;
  whereWord : str;
  whereSpace : str;
  conditionPart : str
}.

Definition fragmentText (q : MatchWhere) : str :=
  indentation q ++ matchWord q ++ matchSpace q ++ patternPart q
  ++ whereWord q ++ whereSpace q ++ conditionPart q.

(** The parts are what their names say: the keywords are spelled in some
    letter case and followed by white space, the pattern does not start with
    white space and no keyword WHERE followed by white space starts in it,
    and the white space behind WHERE ends where the condition part starts. *)
Definition match_where (q : MatchWhere) : bool :=
  forallb is_space (indentation q)
  && spells (codes "MATCH") (matchWord q) && is_white (matchSpace q)
  && negb (starts_with [is_space] (patternPart q))
  && negb (occurs where_keyword (patternPart q ++ whereWord q))
  && spells (codes "WHERE") (whereWord q) && is_white (whereSpace q)
  && negb (starts_with [is_space] (conditionPart q)).

(** The fragment with one more tab in front, as [padBlock] pads a text
    without line feed. *)
Definition indented (q : MatchWhere) : MatchWhere :=
  mkMatchWhere (TAB :: indentation q) (matchWord q) (matchSpace q)
               (patternPart q) (whereWord q) (whereSpace q) (conditionPart q).

(** The properties body that the conditions of a conjunction stand for,
    written out: [name: value] of the first, and for each further condition
    a comma, a space and its [name: value]. *)
Definition propertiesText (e : Equality) (more : list (str * Equality)) : str :=
  propertyText e
  ++ flat_map (fun x => codes ", " ++ propertyText (snd x)) more.

(** The keyword WHERE, with white space behind it, stands in [s] as a word
    of its own: at the start of the text or behind a character that is no
    word character.  [inside] tells whether the character in front is a
    word character. *)
Fixpoint where_word_from (inside : bool) (s : str) : bool :=
  match s with
  | [] => false
  | c :: t =>
      (negb inside && starts_with where_keyword s)
      || where_word_from (is_word c) t
  end.

Definition where_word (s : str) : bool := where_word_from false s.





(** The last character of a text is [a]. *)
Fixpoint ends_with (a : char) (s : str) : bool :=
  match s with
  | [] => false
  | [c] => N.eqb c a
  | _ :: t => ends_with a t
  end.

(** ** Concrete renders *)

Example getCypher_single_condition :
  getCypher (codes "MATCH (this0:Movie) WHERE this0.title = $param0")
  = codes "EXISTS (" ++ [LF] ++ codes "(:Movie { title: $param0 }) " ++ [LF]
    ++ codes ")".
Proof. vm_compute. reflexivity. Qed.

Example getCypher_two_conditions :
  getCypher (codes "MATCH (n:Person) WHERE n.a = 1 AND n.b = 2")
  = codes "EXISTS (" ++ [LF] ++ codes "(:Person { a: 1, b: 2 }) " ++ [LF]
    ++ codes ")".
Proof. vm_compute. reflexivity. Qed.

Example getCypher_without_where :
  getCypher (codes "MATCH (n:Person)")
  = codes "EXISTS {" ++ [LF; TAB] ++ codes "MATCH (n:Person)" ++ [LF]
    ++ codes ")".
Proof. vm_compute. reflexivity. Qed.

Example transform_wrapped_condition :
  transformCypherQuery (codes "MATCH (n:Person) WHERE (n.a = 1)")
  = inl (codes "(:Person { a: 1 }) ").
Proof. vm_compute. reflexivity. Qed.

Example transform_two_nodes :
  transformCypherQuery
    (codes "MATCH (a:Person)-[r:KNOWS]->(b:Person) WHERE a.name = $p")
  = inl (codes "(:Person { name: $p })-[r:KNOWS]->(:Person) ").
Proof. vm_compute. reflexivity. Qed.

(** ** The matcher on character classes and literals *)

Lemma advance_0 (x : MatchState) : advance x 0 = x.
Proof. destruct x; unfold advance; simpl. now rewrite Nat.add_0_r. Qed.

Lemma advance_step (i : nat) (c : char) (t : str) (cs : list (nat * str)) (k : nat) :
  advance (mkState (S i) t cs) k = advance (mkState i (c :: t) cs) (S k).
Proof. unfold advance; simpl. now rewrite Nat.add_succ_r. Qed.

Lemma advance_advance (x : MatchState) (j k : nat) :
  advance (advance x j) k = advance x (j + k).
Proof.
  unfold advance; simpl. rewrite skipn_skipn, Nat.add_assoc.
  now rewrite (Nat.add_comm k j).
Qed.

(** One character of a class: the state one unit on, or no match. *)
Lemma matches_CharSet (p : char -> bool) (x : MatchState) :
  matches (CharSet p) x
  = if starts_with [p] (rest x) then [advance x 1] else [].
Proof.
  destruct x as [i [|c t] cs]; simpl; [reflexivity|].
  rewrite andb_true_r. unfold advance; simpl. now rewrite Nat.add_1_r.
Qed.

Lemma starts_with_app (ps qs : list (char -> bool)) (s : str) :
  starts_with (ps ++ qs) s
  = starts_with ps s && starts_with qs (skipn (length ps) s).
Proof.
  revert s; induction ps as [|p ps IH]; intros s; simpl; [reflexivity|].
  destruct s as [|c t]; [reflexivity|]. now rewrite IH, andb_assoc.
Qed.

Lemma matches_seq_CharSet (ps : list (char -> bool)) (x : MatchState) :
  matches (seq (map CharSet ps)) x
  = if starts_with ps (rest x) then [advance x (length ps)] else [].
Proof.
  revert x; induction ps as [|p ps IH]; intros x.
  - simpl. now rewrite advance_0.
  - destruct x as [i [|c t] cs]; simpl; [reflexivity|].
    destruct (p c); simpl; [|reflexivity].
    rewrite app_nil_r. change (fold_right Seq Empty (map CharSet ps))
      with (seq (map CharSet ps)).
    rewrite IH; simpl. destruct (starts_with ps t); [|reflexivity].
    now rewrite (advance_step i c).
Qed.

Lemma matches_lit_i (s : str) (x : MatchState) :
  matches (lit_i s) x
  = if starts_with (map is_char_i s) (rest x) then [advance x (length s)] else [].
Proof.
  unfold lit_i. rewrite <- (map_map is_char_i CharSet), matches_seq_CharSet.
  now rewrite length_map.
Qed.

(** A repetition of a character class, unrolled once. *)
Lemma matches_Star_CharSet (g : bool) (p : char -> bool) (x : MatchState) :
  matches (Star g (CharSet p)) x
  = let again :=
      match rest x with
      | c :: t =>
          if p c then matches (Star g (CharSet p))
                              (mkState (S (endIndex x)) t (captures x))
          else []
      | [] => []
      end in
    if g then again ++ [x] else x :: again.
Proof.
  destruct x as [i [|c t] cs]; simpl; [reflexivity|].
  destruct (p c); simpl; [|reflexivity].
  rewrite app_nil_r.
  replace (length t <? S (length t)) with true
    by (symmetry; apply Nat.ltb_lt; lia).
  reflexivity.
Qed.

(** A repetition of a character class stops anywhere in the longest run of
    the class: the longest stop first when greedy, the shortest when lazy. *)
Lemma matches_Star_run (g : bool) (p : char -> bool) (x : MatchState) :
  matches (Star g (CharSet p)) x
  = map (advance x)
        (if g then rev (List.seq 0 (S (run p (rest x))))
         else List.seq 0 (S (run p (rest x)))).
Proof.
  destruct x as [i s cs]. revert i; induction s as [|c t IH]; intros i.
  - rewrite matches_Star_CharSet. cbn [rest run].
    destruct g; cbn [List.seq rev app map]; now rewrite advance_0.
  - rewrite matches_Star_CharSet. cbn [rest endIndex captures run].
    assert (E : forall l, map (advance (mkState (S i) t cs)) l
                          = map (advance (mkState i (c :: t) cs)) (map S l)).
    { intros l. rewrite map_map. apply map_ext. intros k. apply advance_step. }
    destruct (p c).
    + rewrite IH. cbn [rest].
      destruct g; cbn zeta.
      * rewrite E, map_rev, seq_shift.
        replace (List.seq 0 (S (S (run p t))))
          with (0 :: List.seq 1 (S (run p t))) by reflexivity.
        cbn [rev]. rewrite map_app. cbn [map]. now rewrite advance_0.
      * rewrite E, seq_shift.
        rewrite <- (advance_0 (mkState i (c :: t) cs)) at 1.
        reflexivity.
    + destruct g; cbn [List.seq rev app map]; now rewrite advance_0.
Qed.

(** ** What every match consumes *)

Lemma reaches_refl (x : MatchState) : reaches x x 0.
Proof. unfold reaches; simpl. rewrite Nat.add_0_r. repeat split; lia. Qed.

Lemma reaches_trans (x y z : MatchState) (j k : nat) :
  reaches x y j -> reaches y z k -> reaches x z (j + k).
Proof.
  intros (E1 & R1 & L1) (E2 & R2 & L2). unfold reaches.
  rewrite E2, E1, R2, R1, skipn_skipn. rewrite R1, length_skipn in L2.
  repeat split; try lia. f_equal; lia.
Qed.

Lemma star_loop_reaches (g : bool) (step : MatchState -> list MatchState) :
  (forall x y, In y (step x) -> exists k, reaches x y k) ->
  forall fuel x y, In y (star_loop g step fuel x) -> exists k, reaches x y k.
Proof.
  intros Hstep fuel; induction fuel as [|fuel IH]; intros x y Hy; simpl in Hy.
  - destruct Hy as [<-|[]]. exists 0; apply reaches_refl.
  - assert (H : In y (flat_map (fun y0 => if length (rest y0) <? length (rest x)
                                          then star_loop g step fuel y0 else [])
                               (step x)) \/ y = x).
    { destruct g.
      - apply in_app_or in Hy. destruct Hy as [Hy|[<-|[]]]; auto.
      - destruct Hy as [<-|Hy]; auto. }
    destruct H as [H| ->]; [|exists 0; apply reaches_refl].
    apply in_flat_map in H. destruct H as (z & Hz & Hy').
    destruct (length (rest z) <? length (rest x)); [|destruct Hy'].
    destruct (Hstep _ _ Hz) as (j & Hj). destruct (IH _ _ Hy') as (k & Hk).
    exists (j + k). eapply reaches_trans; eauto.
Qed.

Lemma matches_reaches (r : regex) :
  forall x y, In y (matches r x) -> exists k, reaches x y k.
Proof.
  induction r as [|p|r1 IH1 r2 IH2|r1 IH1 r2 IH2|g r1 IH1|i r1 IH1|r1 IH1| |];
    intros x y Hy; cbn [matches] in Hy.
  - destruct Hy as [<-|[]]. exists 0; apply reaches_refl.
  - destruct x as [i [|c t] cs]; simpl in Hy; [destruct Hy|].
    destruct (p c); [|destruct Hy]. destruct Hy as [<-|[]].
    exists 1. unfold reaches; simpl. repeat split; lia.
  - apply in_flat_map in Hy. destruct Hy as (z & Hz & Hy).
    destruct (IH1 _ _ Hz) as (j & Hj). destruct (IH2 _ _ Hy) as (k & Hk).
    exists (j + k). eapply reaches_trans; eauto.
  - apply in_app_or in Hy. destruct Hy as [Hy|Hy]; eauto.
  - eapply star_loop_reaches; eauto.
  - apply in_map_iff in Hy. destruct Hy as (z & <- & Hz).
    destruct (IH1 _ _ Hz) as (k & Hk). exists k. exact Hk.
  - destruct (matches r1 x) as [|z l]; [destruct Hy|].
    destruct Hy as [<-|[]]. exists 0. unfold reaches; simpl.
    rewrite Nat.add_0_r. repeat split; lia.
  - destruct (endIndex x =? 0); [|destruct Hy].
    destruct Hy as [<-|[]]. exists 0; apply reaches_refl.
  - destruct (rest x); [|destruct Hy].
    destruct Hy as [<-|[]]. exists 0; apply reaches_refl.
Qed.

Lemma match_at_reaches (r : regex) (i : nat) (s : str) (y : MatchState) :
  match_at r i s = Some y ->
  exists k, endIndex y = i + k /\ rest y = skipn k s /\ k <= length s.
Proof.
  unfold match_at. intros H.
  destruct (matches r (mkState i s [])) as [|z l] eqn:E; [discriminate|].
  injection H as ->.
  destruct (matches_reaches r (mkState i s []) y) as (k & Hk).
  - rewrite E. now left.
  - exists k. exact Hk.
Qed.

(** ** The search for the first match *)

(** [exec_from] returns the match at the first index that has one. *)
Lemma exec_from_Some (r : regex) (s : str) (i j : nat) (y : MatchState) :
  exec_from r i s = Some (j, y) ->
  exists k, j = i + k /\ k <= length s
            /\ match_at r j (skipn k s) = Some y
            /\ forall k', k' < k -> match_at r (i + k') (skipn k' s) = None.
Proof.
  revert i; induction s as [|c t IH]; intros i H; simpl in H.
  - destruct (match_at r i []) eqn:E; [|discriminate].
    injection H as <- <-. exists 0. rewrite Nat.add_0_r.
    repeat split; auto. intros k' Hk; lia.
  - destruct (match_at r i (c :: t)) eqn:E.
    + injection H as <- <-. exists 0. rewrite Nat.add_0_r.
      repeat split; auto; [simpl; lia|]. intros k' Hk; lia.
    + destruct (IH _ H) as (k & -> & Hk & Hm & Hn). exists (S k).
      repeat split; [lia|simpl; lia|exact Hm|].
      intros [|k'] Hk'; [now rewrite Nat.add_0_r|].
      simpl. rewrite Nat.add_succ_r. apply Hn. lia.
Qed.

Lemma exec_from_None (r : regex) (s : str) (i : nat) :
  (forall k, k <= length s -> match_at r (i + k) (skipn k s) = None) ->
  exec_from r i s = None.
Proof.
  revert i; induction s as [|c t IH]; intros i H; simpl.
  - specialize (H 0 (Nat.le_refl _)). rewrite Nat.add_0_r in H.
    simpl in H. now rewrite H.
  - pose proof (H 0 (Nat.le_0_l _)) as H0. rewrite Nat.add_0_r in H0.
    simpl in H0. rewrite H0. apply IH. intros k Hk.
    specialize (H (S k)). rewrite Nat.add_succ_r in H. apply H. simpl; lia.
Qed.

(** The search skips a prefix in which the pattern matches nowhere. *)
Lemma exec_from_skip (r : regex) (pre s : str) (i : nat) :
  (forall k, k < length pre -> match_at r (i + k) (skipn k pre ++ s) = None) ->
  exec_from r i (pre ++ s) = exec_from r (i + length pre) s.
Proof.
  revert i; induction pre as [|c pre IH]; intros i H.
  - simpl. now rewrite Nat.add_0_r.
  - pose proof (H 0 (Nat.lt_0_succ _)) as H0. rewrite Nat.add_0_r in H0.
    simpl in H0. simpl. rewrite H0. rewrite IH.
    + f_equal. lia.
    + intros k Hk. specialize (H (S k)). rewrite Nat.add_succ_r in H.
      apply H. simpl; lia.
Qed.

Lemma matches_Seq (r1 r2 : regex) (x : MatchState) :
  matches (Seq r1 r2) x = flat_map (matches r2) (matches r1 x).
Proof. reflexivity. Qed.

Lemma matches_Alt (r1 r2 : regex) (x : MatchState) :
  matches (Alt r1 r2) x = matches r1 x ++ matches r2 x.
Proof. reflexivity. Qed.

Lemma matches_Empty (x : MatchState) : matches Empty x = [x].
Proof. reflexivity. Qed.

Lemma matches_Group (i : nat) (r : regex) (x : MatchState) :
  matches (Group i r) x = map (set_capture i x) (matches r x).
Proof. reflexivity. Qed.

Lemma matches_plus_CharSet_no (g : bool) (p : char -> bool) (x : MatchState) :
  starts_with [p] (rest x) = false -> matches (plus g (CharSet p)) x = [].
Proof.
  intros H. unfold plus. rewrite matches_Seq, matches_CharSet, H. reflexivity.
Qed.

(** ** Fragments without a WHERE clause *)

Lemma whereRegEx_parts :
  whereRegEx
  = Seq (lit_i (codes "WHERE")) (Seq (plus true (CharSet is_space)) whereTail).
Proof. reflexivity. Qed.

Lemma matches_where_keyword (x : MatchState) :
  starts_with where_keyword (rest x) = false -> matches whereRegEx x = [].
Proof.
  intros H. rewrite whereRegEx_parts, matches_Seq, matches_lit_i.
  unfold where_keyword in H. rewrite starts_with_app, length_map in H.
  destruct (starts_with (map is_char_i (codes "WHERE")) (rest x));
    [|reflexivity].
  simpl in H. cbn [flat_map]. rewrite app_nil_r, matches_Seq.
  rewrite matches_plus_CharSet_no; [reflexivity|exact H].
Qed.

Lemma exec_where_None (s : str) (i : nat) :
  occurs where_keyword s = false -> exec_from whereRegEx i s = None.
Proof.
  revert i; induction s as [|c t IH]; intros i H; simpl in H.
  - cbn [exec_from]. unfold match_at. now rewrite matches_where_keyword.
  - apply orb_false_iff in H. destruct H as [H1 H2].
    cbn [exec_from]. unfold match_at at 1.
    rewrite matches_where_keyword by exact H1. simpl. now apply IH.
Qed.

Lemma occurs_skipn (ps : list (char -> bool)) (s : str) (n : nat) :
  occurs ps s = false -> occurs ps (skipn n s) = false.
Proof.
  revert s; induction n as [|n IH]; intros s H; [exact H|].
  destruct s as [|c t]; [exact H|]. simpl in H.
  apply orb_false_iff in H. simpl. apply IH, H.
Qed.

(** Stripping MATCH removes a prefix of the fragment. *)
Lemma stripMatch_suffix (cypherFragment : str) :
  exists n, stripMatch cypherFragment = skipn n cypherFragment.
Proof.
  unfold stripMatch, replace, exec.
  destruct (exec_from matchRegEx 0 cypherFragment) as [[j y]|] eqn:E;
    [|now exists 0].
  apply exec_from_Some in E. destruct E as (k & -> & _ & Hm & _).
  destruct (match_at_reaches _ _ _ Hm) as (m & _ & Hr & _).
  unfold match_at in Hm. cbn [matchRegEx seq fold_right] in Hm.
  rewrite matches_Seq in Hm. cbn [matches endIndex] in Hm.
  destruct k as [|k]; [|discriminate Hm].
  exists m. unfold substitute. cbn [getSubstitution firstn app].
  exact Hr.
Qed.

Lemma starts_with_where_padded (s : str) :
  starts_with where_keyword
    (flat_map (fun c => if N.eqb c LF then [LF; TAB] else [c]) s)
  = starts_with where_keyword s.
Proof.
  unfold where_keyword.
  assert (Hlf : forall p, In p (map is_char_i (codes "WHERE")) -> p LF = false).
  { intros p Hp. simpl in Hp.
    repeat (destruct Hp as [<-|Hp]; [reflexivity|]). destruct Hp. }
  revert Hlf. generalize (map is_char_i (codes "WHERE")). intros ps Hlf.
  revert s; induction ps as [|p ps IH]; intros s.
  - destruct s as [|c t]; [reflexivity|]. simpl.
    destruct (N.eqb_spec c LF) as [->|]; reflexivity.
  - destruct s as [|c t]; [reflexivity|]. cbn [flat_map app starts_with].
    destruct (N.eqb_spec c LF) as [->|].
    + cbn [app starts_with]. rewrite (Hlf p) by now left. reflexivity.
    + cbn [app starts_with]. f_equal. apply IH.
      intros q Hq. apply Hlf. now right.
Qed.

Lemma occurs_where_padBlock (s : str) :
  occurs where_keyword (padBlock s) = occurs where_keyword s.
Proof.
  unfold padBlock.
  change (occurs where_keyword (TAB :: ?l)) with (occurs where_keyword l).
  induction s as [|c t IH]; [reflexivity|].
  cbn [occurs]. rewrite <- IH, <- (starts_with_where_padded (c :: t)).
  cbn [flat_map]. destruct (N.eqb_spec c LF) as [->|]; reflexivity.
Qed.

(** C2 (amended). A subquery whose rendered text has nowhere the letters
    WHERE, in any letter case, followed by white space, not even inside a
    name, makes the rewrite throw; [getCypher] catches the error and returns the fallback:
    [EXISTS {], a line feed, the padded text as it was (not rewritten, the
    MATCH line intact), a line feed and a closing parenthesis.  Whatever the
    rewrite throws, on any subquery, [getCypher] returns the fallback string
    and no error. *)
Theorem getCypher_without_where_clause (subQueryStr : str) :
  occurs where_keyword subQueryStr = false ->
  transformCypherQuery (padBlock subQueryStr) = noWhereClause
  /\ getCypher subQueryStr
     = codes "EXISTS {" ++ [LF] ++ padBlock subQueryStr ++ [LF] ++ codes ")"
  /\ (forall other e,
         transformCypherQuery (padBlock other) = inr e ->
         getCypher other
         = codes "EXISTS {" ++ [LF] ++ padBlock other ++ [LF] ++ codes ")").
Proof.
  intros H.
  assert (T : transformCypherQuery (padBlock subQueryStr) = noWhereClause).
  { unfold transformCypherQuery, exec.
    destruct (stripMatch_suffix (padBlock subQueryStr)) as (n & ->).
    rewrite exec_where_None; [reflexivity|].
    apply occurs_skipn. now rewrite occurs_where_padBlock. }
  split; [exact T|]. split.
  - unfold getCypher. now rewrite T.
  - intros other e E. unfold getCypher. now rewrite E.
Qed.

Lemma getCypher_without_where_clause_witness :
  occurs where_keyword (codes "MATCH (n:Person)") = false
  /\ getCypher (codes "MATCH (n:Person)")
     = codes "EXISTS {" ++ [LF] ++ padBlock (codes "MATCH (n:Person)") ++ [LF]
       ++ codes ")".
Proof.
  split; [reflexivity|].
  apply (@getCypher_without_where_clause (codes "MATCH (n:Person)")).
  reflexivity.
Defined.

(** C2 as stated fails: the subquery [MATCH (this0:`Somewhere Else`)] has no
    WHERE clause, the keyword stands nowhere in it as a word of its own, but
    the pattern of line 63 has no word boundary and matches [where Else`)]
    inside the label; the rewrite does not throw and [getCypher] returns
    [EXISTS (], the cut pattern and [)], not the fallback. *)
Lemma where_inside_name_rewritten :
  ~ (forall subQueryStr,
        where_word subQueryStr = false ->
        getCypher subQueryStr = fallback (padBlock subQueryStr)).
Proof.
  intros H. specialize (H (codes "MATCH (this0:`Somewhere Else`)") eq_refl).
  vm_compute in H. discriminate H.
Qed.

(** ** The match of [whereRegEx] in closed form *)

Lemma matches_closeAtEnd (z : MatchState) :
  matches closeAtEnd z
  = match rest z with
    | [] => [z]
    | [c] => if N.eqb c RPAREN
             then [mkState (S (endIndex z)) [] (captures z)] else []
    | _ :: _ :: _ => []
    end.
Proof.
  destruct z as [i [|c [|c' t]] cs]; cbn; unfold is_char;
    try destruct (N.eqb c RPAREN); reflexivity.
Qed.

Lemma skipn_cons_inv (A : Type) (k : nat) (l : list A) (c : A) (t : list A) :
  skipn k l = c :: t -> skipn (S k) l = t.
Proof.
  revert l; induction k as [|k IH]; intros l H.
  - simpl in H. subst l. reflexivity.
  - destruct l as [|a l]; [discriminate|]. simpl in H. apply IH in H. exact H.
Qed.

Lemma flat_map_all_nil (A B : Type) (f : A -> list B) (l : list A) :
  (forall a, In a l -> f a = []) -> flat_map f l = [].
Proof.
  induction l as [|a l IH]; intros H; [reflexivity|]. simpl.
  rewrite (H a) by now left. apply IH. intros b Hb. apply H. now right.
Qed.

(** The lazy capture followed by the end of the fragment, started [k] units
    into the captured text: it succeeds at the end of a text without line
    terminator, leaving a last closing parenthesis out of the capture, and
    fails on a text with a line terminator. *)
Lemma lazy_capture_to_end (s : str) :
  forall (x0 : MatchState) (k : nat),
    skipn k (rest x0) = s ->
    let F := flat_map (matches closeAtEnd)
               (map (set_capture 1 x0)
                    (matches (Star false (CharSet is_dot)) (advance x0 k))) in
    (forallb is_dot s = true ->
     hd_error F
     = Some (mkState (endIndex x0 + k + length s) []
               ((1, firstn (k + length (dropClose s)) (rest x0))
                :: captures x0)))
    /\ (forallb is_dot s = false -> F = []).
Proof.
  induction s as [|c t IH]; intros x0 k Hs F; subst F.
  - rewrite matches_Star_CharSet. cbn [advance rest]. rewrite Hs.
    cbn [map flat_map]. rewrite matches_closeAtEnd.
    unfold set_capture, advance; cbn [rest endIndex captures]. rewrite Hs.
    split; [|discriminate]. intros _. cbn [app hd_error length dropClose].
    rewrite !Nat.add_0_r.
    now replace (endIndex x0 + k - endIndex x0) with k by lia.
  - rewrite matches_Star_CharSet. cbn [advance rest endIndex captures].
    rewrite Hs. cbn zeta.
    assert (Hnext : mkState (S (endIndex x0 + k)) t (captures x0)
                    = advance x0 (S k)).
    { unfold advance. rewrite (skipn_cons_inv _ _ Hs). f_equal. lia. }
    rewrite Hnext. cbn [map flat_map]. rewrite matches_closeAtEnd.
    change (rest (set_capture 1 x0 (advance x0 k))) with (skipn k (rest x0)).
    change (endIndex (set_capture 1 x0 (advance x0 k))) with (endIndex x0 + k).
    change (captures (set_capture 1 x0 (advance x0 k)))
      with ((1, firstn (endIndex x0 + k - endIndex x0) (rest x0))
            :: captures x0).
    rewrite Hs. cbn [forallb].
    destruct (IH x0 (S k) (skipn_cons_inv _ _ Hs)) as [IHt IHf].
    cbn zeta in IHt, IHf.
    replace (endIndex x0 + k - endIndex x0) with k by lia.
    replace (endIndex x0 + k + length (c :: t))
      with (endIndex x0 + S k + length t) by (simpl; lia).
    destruct t as [|c' t'].
    + destruct (N.eqb_spec c RPAREN) as [->|Hc].
      * split; [|discriminate]. intros _. cbn [app hd_error length dropClose].
        rewrite N.eqb_refl. cbn [length].
        rewrite !Nat.add_0_r. now replace (endIndex x0 + S k) with (S (endIndex x0 + k)) by lia.
      * cbn [app]. destruct (is_dot c).
        -- split; [|discriminate]. intros _. rewrite IHt by reflexivity.
           cbn [length dropClose]. destruct (N.eqb_spec c RPAREN); [contradiction|].
           cbn [length]. now replace (k + 1) with (S k + 0) by lia.
        -- split; [discriminate|]. intros _. reflexivity.
    + cbn [app]. destruct (is_dot c).
      * cbn [andb]. split.
        -- intros H. rewrite IHt by exact H.
           change (dropClose (c :: c' :: t')) with (c :: dropClose (c' :: t')).
           cbn [length].
           replace (k + S (length (dropClose (c' :: t'))))
             with (S k + length (dropClose (c' :: t'))) by lia.
           reflexivity.
        -- exact IHf.
      * split; [discriminate|]. intros _. reflexivity.
Qed.

Lemma dropClose_prefix (s : str) : firstn (length (dropClose s)) s = dropClose s.
Proof.
  induction s as [|c t IH]; [reflexivity|].
  destruct t as [|c' t'].
  - simpl. destruct (N.eqb c RPAREN); reflexivity.
  - change (dropClose (c :: c' :: t')) with (c :: dropClose (c' :: t')).
    cbn [length firstn]. now rewrite IH.
Qed.

Lemma hd_error_app_Some (A : Type) (l l' : list A) (a : A) :
  hd_error l = Some a -> hd_error (l ++ l') = Some a.
Proof. destruct l; [discriminate|]. simpl. auto. Qed.

Lemma forallb_skipn (A : Type) (p : A -> bool) (l : list A) (n : nat) :
  forallb p l = true -> forallb p (skipn n l) = true.
Proof.
  revert l; induction n as [|n IH]; intros l H; [exact H|].
  destruct l as [|a l]; [reflexivity|]. simpl in H.
  apply andb_true_iff in H. simpl. apply IH, H.
Qed.

Lemma run_le (p : char -> bool) (s : str) : run p s <= length s.
Proof.
  induction s as [|c t IH]; simpl; [lia|]. destruct (p c); simpl; lia.
Qed.

Lemma starts_with_length (ps : list (char -> bool)) (s : str) :
  starts_with ps s = true -> length ps <= length s.
Proof.
  revert s; induction ps as [|p ps IH]; intros s H; simpl; [lia|].
  destruct s as [|c t]; [discriminate|]. simpl in H.
  apply andb_true_iff in H. destruct H as [_ H]. apply IH in H. simpl. lia.
Qed.

(** [whereTail] on the text left after the keyword and its white space. *)
Lemma matches_whereTail (x : MatchState) :
  (forallb is_dot (rest x) = true ->
   hd_error (matches whereTail x)
   = Some (mkState (endIndex x + length (rest x)) []
             ((1, conditionText (rest x)) :: captures x)))
  /\ (forallb is_dot (rest x) = false -> matches whereTail x = []).
Proof.
  assert (G : forall z,
    (forallb is_dot (rest z) = true ->
     hd_error (matches (Seq (Group 1 (Star false (CharSet is_dot))) closeAtEnd) z)
     = Some (mkState (endIndex z + length (rest z)) []
               ((1, dropClose (rest z)) :: captures z)))
    /\ (forallb is_dot (rest z) = false ->
        matches (Seq (Group 1 (Star false (CharSet is_dot))) closeAtEnd) z = [])).
  { intros z. rewrite matches_Seq, matches_Group.
    destruct (@lazy_capture_to_end (rest z) z 0 eq_refl) as [A B].
    cbn zeta in A, B. rewrite advance_0 in A, B.
    rewrite Nat.add_0_r in A. cbn [Nat.add] in A.
    rewrite dropClose_prefix in A. split; assumption. }
  change whereTail
    with (Seq (opt (CharSet (is_char LPAREN)))
              (Seq (Group 1 (Star false (CharSet is_dot))) closeAtEnd)).
  rewrite matches_Seq. unfold opt. rewrite matches_Alt, matches_Empty.
  rewrite matches_CharSet, flat_map_app. cbn [flat_map]. rewrite app_nil_r.
  destruct (G x) as [Gx1 Gx2]. unfold conditionText, dropOpen.
  destruct x as [i [|c t] cs]; cbn [rest endIndex captures] in *.
  - cbn [starts_with flat_map app]. split; assumption.
  - cbn [starts_with]. unfold is_char. rewrite andb_true_r.
    destruct (N.eqb_spec c LPAREN) as [->|Hc].
    + cbn [flat_map]. rewrite app_nil_r.
      destruct (G (advance (mkState i (LPAREN :: t) cs) 1)) as [G1 G2].
      cbn [advance rest endIndex captures skipn] in G1, G2.
      cbn [forallb]. change (is_dot LPAREN) with true. cbn [andb]. split.
      * intros H. apply hd_error_app_Some. rewrite G1 by exact H.
        cbn [length]. now replace (i + 1 + length t) with (i + S (length t)) by lia.
      * intros H. rewrite G2 by exact H. apply Gx2.
        cbn [forallb]. change (is_dot LPAREN) with true. exact H.
    + cbn [flat_map app]. split; assumption.
Qed.

(** The match of [whereRegEx] at the head of [s]: it ends at the end of the
    fragment and captures [whereCondition]. *)
Lemma match_at_whereRegEx (i : nat) (s : str) :
  match_at whereRegEx i s
  = match whereCondition s with
    | Some c => Some (mkState (i + length s) [] [(1, c)])
    | None => None
    end.
Proof.
  unfold match_at, whereCondition.
  destruct (starts_with where_keyword s) eqn:K;
    [|now rewrite matches_where_keyword].
  pose proof (starts_with_length _ _ K) as L. cbn [where_keyword length map app codes list_ascii_of_string] in L.
  unfold where_keyword in K. rewrite starts_with_app, length_map in K.
  apply andb_true_iff in K. destruct K as [K1 K2].
  change (length (codes "WHERE")) with 5 in K2.
  rewrite whereRegEx_parts, matches_Seq, matches_lit_i.
  cbn [rest]. rewrite K1. change (length (codes "WHERE")) with 5.
  cbn [flat_map]. rewrite app_nil_r, matches_Seq. unfold plus.
  rewrite matches_Seq, matches_CharSet.
  change (rest (advance (mkState i s []) 5)) with (skipn 5 s). rewrite K2.
  cbn [flat_map]. rewrite app_nil_r, advance_advance, matches_Star_run.
  change (5 + 1) with 6. set (x := mkState i s []).
  change (rest (advance x 6)) with (skipn 6 s).
  set (n := run is_space (skipn 6 s)).
  assert (Hrun : run is_space (skipn 5 s) = S n).
  { subst n. change (skipn 6 s) with (skipn (1 + 5) s).
    rewrite <- skipn_skipn.
    destruct (skipn 5 s) as [|c t]; [discriminate|]. simpl in K2.
    rewrite andb_true_r in K2. simpl. now rewrite K2. }
  rewrite Hrun.
  assert (Hn : 6 + n <= length s).
  { subst n. pose proof (run_le is_space (skipn 6 s)) as R.
    rewrite length_skipn in R. lia. }
  replace (5 + S n) with (6 + n) by lia.
  rewrite seq_S, rev_app_distr, Nat.add_0_l. cbn [rev app map flat_map].
  rewrite advance_advance.
  destruct (matches_whereTail (advance x (6 + n))) as [T1 T2].
  cbn [advance rest endIndex captures x] in T1, T2.
  destruct (forallb is_dot (skipn (6 + n) s)) eqn:D.
  - apply hd_error_app_Some. rewrite T1 by reflexivity.
    rewrite length_skipn.
    now replace (i + (6 + n) + (length s - (6 + n)))
      with (i + length s) by lia.
  - rewrite T2 by reflexivity. cbn [app].
    rewrite flat_map_all_nil; [reflexivity|].
    intros z Hz. apply in_map_iff in Hz. destruct Hz as (k & <- & Hk).
    apply in_rev, in_seq in Hk. rewrite advance_advance.
    apply (matches_whereTail (advance x (6 + k))).
    cbn [advance rest x].
    destruct (forallb is_dot (skipn (6 + k) s)) eqn:D'; [|reflexivity].
    apply (forallb_skipn _ _ (n - k)) in D'. rewrite skipn_skipn in D'.
    replace (n - k + (6 + k)) with (6 + n) in D' by lia. congruence.
Qed.

(** ** Greedy repetitions that commit *)

Lemma run_starts_with (p : char -> bool) (s : str) (k : nat) :
  k < run p s -> starts_with [p] (skipn k s) = true.
Proof.
  revert s; induction k as [|k IH]; intros s H.
  - destruct s as [|c t]; simpl in *; [lia|].
    destruct (p c); [reflexivity|lia].
  - destruct s as [|c t]; simpl in *; [lia|].
    destruct (p c); [|lia]. apply IH. lia.
Qed.

Lemma run_starts (p : char -> bool) (s : str) :
  starts_with [p] s = true -> run p s = S (run p (skipn 1 s)).
Proof.
  destruct s as [|c t]; [discriminate|]. simpl.
  rewrite andb_true_r. now intros ->.
Qed.

Lemma flat_map_singleton (A : Type) (l : list A) :
  flat_map (fun a => [a]) l = l.
Proof. induction l as [|a l IH]; simpl; congruence. Qed.

Lemma matches_Seq_Empty (r : regex) (x : MatchState) :
  matches (Seq r Empty) x = matches r x.
Proof. rewrite matches_Seq. apply flat_map_singleton. Qed.

(** A greedy repetition of a class, followed by something that cannot start
    inside the class, stops at the end of the run. *)
Lemma greedy_star_then (p : char -> bool)
      (K : MatchState -> list MatchState) (x : MatchState) :
  (forall y, starts_with [p] (rest y) = true -> K y = []) ->
  flat_map K (matches (Star true (CharSet p)) x)
  = K (advance x (run p (rest x))).
Proof.
  intros HK. rewrite matches_Star_run, seq_S, rev_app_distr, Nat.add_0_l.
  cbn [rev app map flat_map].
  rewrite flat_map_all_nil; [apply app_nil_r|].
  intros z Hz. apply in_map_iff in Hz. destruct Hz as (k & <- & Hk).
  apply in_rev, in_seq in Hk. apply HK. cbn [advance rest].
  apply run_starts_with. lia.
Qed.

Lemma greedy_plus_then (p : char -> bool)
      (K : MatchState -> list MatchState) (x : MatchState) :
  (forall y, starts_with [p] (rest y) = true -> K y = []) ->
  flat_map K (matches (plus true (CharSet p)) x)
  = if starts_with [p] (rest x) then K (advance x (run p (rest x))) else [].
Proof.
  intros HK. unfold plus. rewrite matches_Seq, matches_CharSet.
  destruct (starts_with [p] (rest x)) eqn:E; [|reflexivity].
  cbn [flat_map]. rewrite app_nil_r, greedy_star_then by exact HK.
  rewrite advance_advance. cbn [advance rest].
  now rewrite (run_starts _ _ E).
Qed.

Lemma hd_greedy_star (p : char -> bool) (x : MatchState) :
  hd_error (matches (Star true (CharSet p)) x)
  = Some (advance x (run p (rest x))).
Proof.
  rewrite matches_Star_run, seq_S, rev_app_distr, Nat.add_0_l. reflexivity.
Qed.

Lemma hd_greedy_plus (p : char -> bool) (x : MatchState) :
  hd_error (matches (plus true (CharSet p)) x)
  = if starts_with [p] (rest x) then Some (advance x (run p (rest x)))
    else None.
Proof.
  unfold plus. rewrite matches_Seq, matches_CharSet.
  destruct (starts_with [p] (rest x)) eqn:E; [|reflexivity].
  cbn [flat_map]. rewrite app_nil_r, hd_greedy_star, advance_advance.
  cbn [advance rest]. now rewrite (run_starts _ _ E).
Qed.

(** ** The matches of the two separators in closed form *)

Lemma match_at_andRegEx (i : nat) (s : str) :
  match_at andRegEx i s
  = match andSeparator s with
    | Some len => Some (advance (mkState i s []) len)
    | None => None
    end.
Proof.
  unfold match_at, andSeparator.
  change andRegEx
    with (Seq (plus true (CharSet is_space))
              (Seq (lit_i (codes "AND"))
                   (Seq (plus true (CharSet is_space)) Empty))).
  rewrite matches_Seq, greedy_plus_then.
  - cbn [rest]. destruct (starts_with [is_space] s); [|reflexivity].
    cbn [andb]. rewrite matches_Seq, matches_lit_i. cbn [advance rest].
    destruct (starts_with (map is_char_i (codes "AND")) (skipn (run is_space s) s));
      [|reflexivity].
    cbn [andb flat_map]. rewrite app_nil_r, matches_Seq_Empty, hd_greedy_plus.
    rewrite !advance_advance. cbn [advance rest].
    change (length (codes "AND")) with 3. rewrite !skipn_skipn.
    rewrite (Nat.add_comm 3), <- Nat.add_assoc.
    destruct (starts_with [is_space] (skipn (run is_space s + 3) s));
      reflexivity.
  - intros y Hy. rewrite matches_Seq, matches_lit_i.
    destruct (rest y) as [|c t]; [discriminate|]. simpl in Hy.
    rewrite andb_true_r in Hy.
    replace (starts_with (map is_char_i (codes "AND")) (c :: t)) with false;
      [reflexivity|].
    symmetry. simpl. unfold is_char_i.
    destruct (N.eqb_spec c 65) as [->|]; [discriminate|].
    destruct (N.eqb_spec c (65 + 32)) as [->|]; [discriminate|]. reflexivity.
Qed.

Lemma match_at_equalsRegEx (i : nat) (s : str) :
  match_at equalsRegEx i s
  = match equalsSeparator s with
    | Some len => Some (advance (mkState i s []) len)
    | None => None
    end.
Proof.
  unfold match_at, equalsSeparator.
  change equalsRegEx
    with (Seq (Star true (CharSet is_space))
              (Seq (CharSet (is_char EQUALS))
                   (Seq (Star true (CharSet is_space)) Empty))).
  rewrite matches_Seq, greedy_star_then.
  - rewrite matches_Seq, matches_CharSet. cbn [advance rest].
    destruct (starts_with [is_char EQUALS] (skipn (run is_space s) s));
      [|reflexivity].
    cbn [flat_map]. rewrite app_nil_r, matches_Seq_Empty, hd_greedy_star.
    rewrite !advance_advance. cbn [advance rest]. reflexivity.
  - intros y Hy. rewrite matches_Seq, matches_CharSet.
    destruct (rest y) as [|c t]; [discriminate|]. simpl in Hy |- *.
    rewrite andb_true_r in Hy |- *. unfold is_char.
    destruct (N.eqb_spec c EQUALS) as [->|]; [discriminate|]. reflexivity.
Qed.

(** ** Facts on the character classes *)

Ltac char_unfold :=
  unfold is_word, is_digit, is_space, is_dot, is_line_terminator, is_char,
    is_not_char, is_char_i, in_range, TAB, LF, CR, SPACE, DOLLAR, AMP, QUOTE,
    LPAREN, RPAREN, DOT, COLON, EQUALS, UNDERSCORE, BACKTICK in *.

Ltac char_props :=
  repeat match goal with
         | H : _ = true |- _ =>
             rewrite ?orb_true_iff, ?andb_true_iff, ?negb_true_iff,
               ?orb_false_iff, ?N.leb_le, ?N.eqb_eq, ?N.eqb_neq in H;
             revert H
         | H : _ = false |- _ =>
             rewrite ?orb_false_iff, ?andb_false_iff, ?negb_false_iff,
               ?orb_true_iff, ?andb_true_iff, ?N.leb_gt, ?N.leb_le,
               ?N.eqb_eq, ?N.eqb_neq in H;
             revert H
         end;
  intros.

(** Decides a fact on the class of one character from facts of that kind. *)
Ltac char_facts :=
  char_unfold;
  match goal with
  | |- _ = false => apply not_true_is_false; intro
  | |- _ = true => apply not_false_is_true; intro
  | _ => idtac
  end;
  char_props; lia.

Lemma word_not_space (c : char) : is_word c = true -> is_space c = false.
Proof. intros H. char_facts. Qed.

Lemma word_is_dot (c : char) : is_word c = true -> is_dot c = true.
Proof. intros H. char_facts. Qed.

(** A word character is none of the punctuation marks of the patterns. *)
Lemma word_not_char (a c : char) :
  is_word c = true ->
  In a [TAB; LF; SPACE; DOLLAR; AMP; QUOTE; LPAREN; RPAREN; DOT; COLON;
        EQUALS; BACKTICK] ->
  N.eqb c a = false.
Proof.
  intros H Ha. simpl in Ha.
  repeat (destruct Ha as [<-|Ha]; [char_facts|]). destruct Ha.
Qed.

Lemma starts_with_run (p : char -> bool) (s : str) :
  starts_with [p] s = (1 <=? run p s).
Proof.
  destruct s as [|c t]; [reflexivity|]. simpl. rewrite andb_true_r.
  now destruct (p c).
Qed.

Lemma starts_with_1 (p : char -> bool) (c : char) (t : str) :
  starts_with [p] (c :: t) = p c.
Proof. simpl. apply andb_true_r. Qed.

Lemma flat_map_map (A B C : Type) (f : A -> B) (g : B -> list C) (l : list A) :
  flat_map g (map f l) = flat_map (fun a => g (f a)) l.
Proof. induction l as [|a l IH]; simpl; congruence. Qed.

(** ** The matches of [variableRegEx] and [labelRegEx] in closed form *)

Lemma match_at_variableRegEx (i : nat) (s : str) :
  match_at variableRegEx i s
  = match variableReference s with
    | Some len => Some (mkState (i + len) (skipn len s) [(1, [COLON])])
    | None => None
    end.
Proof.
  unfold match_at, variableReference.
  change variableRegEx
    with (Seq (CharSet (is_char LPAREN))
              (Seq (plus true (CharSet is_word))
                   (Seq (Group 1 (CharSet (is_char COLON))) Empty))).
  rewrite matches_Seq, matches_CharSet. cbn [rest].
  destruct (starts_with [is_char LPAREN] s); [|reflexivity].
  cbn [flat_map andb]. rewrite app_nil_r, matches_Seq, greedy_plus_then.
  - cbn [advance rest]. rewrite <- starts_with_run.
    destruct (starts_with [is_word] (skipn 1 s)); [|reflexivity].
    cbn [andb]. rewrite matches_Seq_Empty, matches_Group, matches_CharSet.
    rewrite advance_advance. cbn [advance rest].
    set (m := run is_word (skipn 1 s)).
    destruct (skipn (1 + m) s) as [|c t] eqn:E; [reflexivity|].
    rewrite starts_with_1. unfold is_char.
    destruct (N.eqb_spec c COLON) as [->|]; [|reflexivity].
    cbn [map hd_error]. unfold set_capture, advance.
    cbn [endIndex rest captures]. rewrite E.
    replace (i + (1 + m) + 1 - (i + (1 + m))) with 1 by lia.
    cbn [firstn skipn]. replace (1 + m + 1) with (S (1 + m)) by lia.
    rewrite (skipn_cons_inv _ _ E).
    now replace (i + (1 + m) + 1) with (i + S (1 + m)) by lia.
  - intros y Hy. rewrite matches_Seq_Empty, matches_Group, matches_CharSet.
    destruct (rest y) as [|c t]; [discriminate|].
    rewrite starts_with_1 in Hy |- *. unfold is_char.
    rewrite (@word_not_char COLON _ Hy); [reflexivity|]. simpl; tauto.
Qed.

(** The end of [labelRegEx]: [\s*(?=\))]. *)
Lemma matches_label_end (z : MatchState) :
  matches (Seq (Star true (CharSet is_space))
               (Seq (LookAhead (CharSet (is_char RPAREN))) Empty)) z
  = if starts_with [is_char RPAREN]
         (skipn (run is_space (rest z)) (rest z))
    then [advance z (run is_space (rest z))] else [].
Proof.
  assert (L : forall w,
    matches (Seq (LookAhead (CharSet (is_char RPAREN))) Empty) w
    = if starts_with [is_char RPAREN] (rest w) then [w] else []).
  { intros [i [|c t] cs]; [reflexivity|]. rewrite matches_Seq_Empty.
    cbn [matches rest endIndex captures starts_with]. rewrite andb_true_r.
    now destruct (is_char RPAREN c). }
  rewrite matches_Seq, greedy_star_then.
  - now rewrite L.
  - intros y Hy. rewrite L. destruct (rest y) as [|c t]; [discriminate|].
    rewrite starts_with_1 in Hy |- *.
    replace (is_char RPAREN c) with false; [reflexivity|].
    symmetry. char_facts.
Qed.

Lemma match_at_labelRegEx (i : nat) (s : str) :
  match_at labelRegEx i s
  = match labelMarker s with
    | Some (l, len) =>
        Some (mkState (i + len) (skipn len s) [(1, firstn l (skipn 1 s))])
    | None => None
    end.
Proof.
  unfold match_at, labelMarker.
  set (quoted := seq [CharSet (is_char BACKTICK);
                      plus true (CharSet (is_not_char BACKTICK));
                      CharSet (is_char BACKTICK)]).
  set (tail := Seq (Star true (CharSet is_space))
                   (Seq (LookAhead (CharSet (is_char RPAREN))) Empty)).
  change labelRegEx
    with (Seq (CharSet (is_char COLON))
              (Seq (Group 1 (Alt (plus true (CharSet is_word)) quoted)) tail)).
  rewrite matches_Seq, matches_CharSet. cbn [rest].
  destruct (starts_with [is_char COLON] s); [|reflexivity].
  cbn [flat_map]. rewrite app_nil_r, matches_Seq, matches_Group, matches_Alt.
  rewrite map_app, flat_map_app, !flat_map_map.
  set (y := advance (mkState i s []) 1). set (t := skipn 1 s).
  set (m := run is_word t).
  (* the label of word characters *)
  assert (W : flat_map (fun a => matches tail (set_capture 1 y a))
                       (matches (plus true (CharSet is_word)) y)
              = if 1 <=? m then matches tail (set_capture 1 y (advance y m))
                else []).
  { rewrite (@greedy_plus_then is_word
               (fun a => matches tail (set_capture 1 y a))).
    - change (rest y) with t. fold m. now rewrite starts_with_run.
    - intros z Hz. subst tail. rewrite matches_label_end.
      change (rest (set_capture 1 y z)) with (rest z).
      destruct (rest z) as [|c u]; [discriminate|].
      rewrite starts_with_1 in Hz. cbn [run].
      rewrite (word_not_space _ Hz). cbn [skipn]. rewrite starts_with_1.
      unfold is_char. rewrite (@word_not_char RPAREN _ Hz); [reflexivity|].
      simpl; tauto. }
  (* the label between backticks *)
  set (b := run (is_not_char BACKTICK) (skipn 1 t)).
  assert (Q : matches quoted y
              = if starts_with [is_char BACKTICK] t && (1 <=? b)
                   && starts_with [is_char BACKTICK] (skipn (1 + b) t)
                then [advance y (1 + b + 1)] else []).
  { subst quoted. cbn [seq fold_right].
    rewrite matches_Seq, matches_CharSet.
    change (rest y) with t.
    destruct (starts_with [is_char BACKTICK] t); [|reflexivity].
    cbn [flat_map andb]. rewrite app_nil_r, matches_Seq, greedy_plus_then.
    - change (rest (advance y 1)) with (skipn 1 t). fold b.
      rewrite starts_with_run. fold b.
      destruct (1 <=? b); [|reflexivity].
      cbn [andb]. rewrite matches_Seq_Empty, matches_CharSet, !advance_advance.
      change (rest (advance y (1 + b))) with (skipn (1 + b) (rest y)).
      change (rest y) with t.
      destruct (starts_with [is_char BACKTICK] (skipn (1 + b) t));
        reflexivity.
    - intros z Hz. rewrite matches_Seq_Empty, matches_CharSet.
      destruct (rest z) as [|c u]; [discriminate|].
      rewrite starts_with_1 in Hz |- *. unfold is_not_char in Hz.
      unfold is_char. apply negb_true_iff in Hz. now rewrite Hz. }
  rewrite W, Q. clear W Q.
  assert (T : forall l,
    l <= length t ->
    hd_error (matches tail (set_capture 1 y (advance y l)))
    = if starts_with [is_char RPAREN] (skipn (l + run is_space (skipn l t)) t)
      then Some (mkState (i + (1 + (l + run is_space (skipn l t))))
                         (skipn (1 + (l + run is_space (skipn l t))) s)
                         [(1, firstn l t)])
      else None).
  { intros l Hl. subst tail. rewrite matches_label_end.
    change (rest (set_capture 1 y (advance y l))) with (skipn l t).
    rewrite skipn_skipn, (Nat.add_comm _ l).
    destruct (starts_with [is_char RPAREN]
                (skipn (l + run is_space (skipn l t)) t)); [|reflexivity].
    cbn [hd_error]. f_equal. unfold advance, set_capture, y, advance.
    cbn [endIndex rest captures]. fold t.
    rewrite !skipn_skipn.
    replace (i + 1 + l - (i + 1)) with l by lia.
    replace (skipn (run is_space (skipn l t) + l) t)
      with (skipn (1 + (l + run is_space (skipn l t))) s)
      by (unfold t at 3; rewrite skipn_skipn; f_equal; lia).
    f_equal. lia. }
  assert (Lm : m <= length t) by apply run_le.
  destruct (1 <=? m) eqn:Em.
  - (* a word label: the backtick form cannot match *)
    assert (Q0 : starts_with [is_char BACKTICK] t = false).
    { apply Nat.leb_le in Em. subst m.
      destruct t as [|c u]; [reflexivity|]. rewrite starts_with_1.
      simpl in Em. destruct (is_word c) eqn:Ec; [|lia].
      unfold is_char. apply (@word_not_char BACKTICK _ Ec). simpl; tauto. }
    rewrite Q0. cbn [andb map flat_map]. rewrite app_nil_r.
    rewrite (T m Lm).
    destruct (starts_with [is_char RPAREN]
                (skipn (m + run is_space (skipn m t)) t)); reflexivity.
  - cbn [app].
    destruct (starts_with [is_char BACKTICK] t && (1 <=? b)
              && starts_with [is_char BACKTICK] (skipn (1 + b) t)) eqn:Eq;
      [|reflexivity].
    cbn [map flat_map]. rewrite app_nil_r.
    assert (Lb : 1 + b + 1 <= length t).
    { apply andb_true_iff in Eq. destruct Eq as [_ Eq].
      apply starts_with_length in Eq. rewrite length_skipn in Eq.
      simpl in Eq. lia. }
    rewrite (T _ Lb).
    destruct (starts_with [is_char RPAREN]
                (skipn (1 + b + 1 + run is_space (skipn (1 + b + 1) t)) t));
      reflexivity.
Qed.

(** ** Stretches without a match *)

Lemma quiet_nil (A : Type) (sep : str -> option A) (t : str) : quiet sep [] t.
Proof. intros k Hk. simpl in Hk. lia. Qed.

Lemma quiet_cons (A : Type) (sep : str -> option A) (c : char) (a t : str) :
  sep (c :: a ++ t) = None -> quiet sep a t -> quiet sep (c :: a) t.
Proof.
  intros H0 H [|k] Hk; [exact H0|]. simpl. apply H. simpl in Hk. lia.
Qed.

Lemma quiet_app (A : Type) (sep : str -> option A) (a b t : str) :
  quiet sep a (b ++ t) -> quiet sep b t -> quiet sep (a ++ b) t.
Proof.
  revert t; induction a as [|c a IH]; intros t Ha Hb; [exact Hb|].
  simpl. apply quiet_cons.
  - rewrite <- app_assoc. apply (Ha 0). simpl; lia.
  - apply IH; [|exact Hb]. intros k Hk. apply (Ha (S k)). simpl; lia.
Qed.

(** A matcher that needs a first character outside the class [p] finds
    nothing inside a text of the class. *)
Lemma quiet_class (A : Type) (sep : str -> option A) (p : char -> bool)
      (a t : str) :
  (forall c u, p c = true -> sep (c :: u) = None) ->
  forallb p a = true -> quiet sep a t.
Proof.
  intros Hsep. induction a as [|c a IH]; intros Ha; [apply quiet_nil|].
  simpl in Ha. apply andb_true_iff in Ha. destruct Ha as [Hc Ha].
  apply quiet_cons; [now apply Hsep|now apply IH].
Qed.

Lemma quiet_tail (A : Type) (sep : str -> option A) (c : char) (a t : str) :
  quiet sep (c :: a) t -> quiet sep a t.
Proof. intros H k Hk. apply (H (S k)). simpl; lia. Qed.

(** ** [split] on a separator that is never empty *)

Section SplitBy.

Variable r : regex.
Variable sep : str -> option nat.

Hypothesis match_at_sep :
  forall i s, match_at r i s
              = match sep s with
                | Some len => Some (advance (mkState i s []) len)
                | None => None
                end.
Hypothesis sep_positive : forall s len, sep s = Some len -> 1 <= len.

Lemma split_loop_quiet (a : str) :
  forall (piece : str) (q fuel : nat) (t : str),
    quiet sep a t -> length a <= fuel ->
    split_loop fuel r piece q (a ++ t)
    = split_loop (fuel - length a) r (piece ++ a) (q + length a) t.
Proof.
  induction a as [|c a IH]; intros piece q fuel t Hq Hf.
  - simpl. now rewrite Nat.sub_0_r, app_nil_r, Nat.add_0_r.
  - destruct fuel as [|fuel]; [simpl in Hf; lia|].
    cbn [app split_loop]. rewrite match_at_sep.
    pose proof (Hq 0 (Nat.lt_0_succ _)) as H0. cbn [skipn app] in H0.
    rewrite H0.
    rewrite IH; [|eapply quiet_tail; eauto|simpl in Hf; lia].
    cbn [length]. rewrite <- app_assoc. cbn [app Nat.sub].
    now rewrite Nat.add_succ_r.
Qed.

Lemma split_loop_sep (piece : str) (q fuel : nat) (s : str) (len : nat) :
  sep s = Some len -> s <> [] ->
  split_loop (S fuel) r piece q s
  = piece :: split_loop fuel r [] (q + len) (skipn len s).
Proof.
  intros Hs Hne. destruct s as [|c t]; [contradiction|].
  cbn [split_loop]. rewrite match_at_sep, Hs.
  cbn [advance endIndex rest]. apply sep_positive in Hs.
  replace (q + len =? q) with false; [reflexivity|].
  symmetry. apply Nat.eqb_neq. lia.
Qed.

(** A text in which the separator occurs nowhere is one piece. *)
Lemma split_quiet (s : str) :
  sep [] = None -> quiet sep s [] -> split r s = [s].
Proof.
  intros H0 Hq. destruct s as [|c t].
  - unfold split. now rewrite match_at_sep, H0.
  - unfold split. rewrite <- (app_nil_r (c :: t)) at 2.
    rewrite split_loop_quiet; [|exact Hq|lia].
    replace (2 * length (c :: t) + 1 - length (c :: t))
      with (S (length (c :: t))) by lia.
    reflexivity.
Qed.

Lemma split_loop_piece (piece : str) (q fuel : nat) (s : str) :
  quiet sep s [] -> length s < fuel ->
  split_loop fuel r piece q s = [piece ++ s].
Proof.
  intros Hq Hf. rewrite <- (app_nil_r s) at 1.
  rewrite split_loop_quiet by (exact Hq || lia).
  destruct (fuel - length s) eqn:E; [lia|]. reflexivity.
Qed.

(** Two pieces around one separator. *)
Lemma split_two (a sp b : str) :
  sp <> [] -> sep [] = None ->
  quiet sep a (sp ++ b) -> sep (sp ++ b) = Some (length sp) ->
  quiet sep b [] ->
  split r (a ++ sp ++ b) = [a; b].
Proof.
  intros Hsp H0 Ha Hs Hb.
  assert (Hne : a ++ sp ++ b <> []).
  { destruct a; [|discriminate]. destruct sp; [contradiction|discriminate]. }
  unfold split. destruct (a ++ sp ++ b) as [|c t] eqn:E; [contradiction|].
  rewrite <- E. clear Hne E.
  replace (length (a ++ sp ++ b)) with (length a + length sp + length b)
    by (rewrite !length_app; lia).
  rewrite split_loop_quiet by (exact Ha || lia).
  cbn [app].
  assert (Lsp : 1 <= length sp) by (destruct sp; [contradiction|simpl; lia]).
  destruct (2 * (length a + length sp + length b) + 1 - length a)
    as [|fuel] eqn:F; [lia|].
  rewrite (split_loop_sep _ _ _ Hs)
    by (destruct sp; [contradiction|discriminate]).
  rewrite skipn_app, skipn_all, Nat.sub_diag. cbn [app skipn].
  rewrite split_loop_piece by (exact Hb || lia). reflexivity.
Qed.

(** Pieces joined by a separator come apart again. *)
Section Joined.

Variable sp_ok : str -> Prop.
Variable piece_ok : str -> Prop.

Hypothesis sp_nonempty : forall sp, sp_ok sp -> sp <> [].
Hypothesis quiet_last : forall p, piece_ok p -> quiet sep p [].
Hypothesis quiet_inner :
  forall p sp p' more, piece_ok p -> sp_ok sp -> piece_ok p' ->
                       quiet sep p (sp ++ p' ++ more).
Hypothesis sp_found :
  forall sp p' more, sp_ok sp -> piece_ok p' ->
                     sep (sp ++ p' ++ more) = Some (length sp).

Lemma joined_head (p : str) (more : list (str * str)) :
  exists tail, joined p more = p ++ tail.
Proof. destruct more as [|[sp p'] more]; eexists; reflexivity. Qed.

Lemma split_loop_joined (more : list (str * str)) :
  forall p,
    piece_ok p ->
    Forall (fun x => sp_ok (fst x) /\ piece_ok (snd x)) more ->
    forall fuel q, length (joined p more) < fuel ->
                   split_loop fuel r [] q (joined p more) = p :: map snd more.
Proof.
  induction more as [|[sp p'] more IH]; intros p Hp Hok fuel q Hf.
  - cbn [joined map] in *. rewrite app_nil_r in *.
    now rewrite split_loop_piece by auto.
  - inversion Hok as [|? ? [Hsp Hp'] Hmore]; subst. cbn [fst snd] in *.
    cbn [joined map snd] in *.
    destruct (joined_head p' more) as (tail & Htail).
    rewrite !length_app in Hf.
    assert (Lsp : 1 <= length sp).
    { pose proof (sp_nonempty Hsp). destruct sp; [contradiction|simpl; lia]. }
    rewrite split_loop_quiet;
      [|rewrite Htail; now apply quiet_inner|lia].
    cbn [app].
    destruct (fuel - length p) as [|fuel'] eqn:F; [lia|].
    rewrite (@split_loop_sep _ _ _ _ (length sp));
      [|rewrite Htail; now apply sp_found
       |destruct sp; [simpl in Lsp; lia|discriminate]].
    rewrite skipn_app, skipn_all, Nat.sub_diag. cbn [app skipn].
    rewrite IH; [reflexivity|exact Hp'|exact Hmore|lia].
Qed.

Lemma split_joined (p : str) (more : list (str * str)) :
  piece_ok p ->
  Forall (fun x => sp_ok (fst x) /\ piece_ok (snd x)) more ->
  sep [] = None ->
  split r (joined p more) = p :: map snd more.
Proof.
  intros Hp Hok H0. unfold split.
  destruct (joined p more) as [|c t] eqn:E.
  - rewrite match_at_sep, H0.
    destruct more as [|[sp p'] more].
    + cbn [joined] in E. rewrite app_nil_r in E. now subst p.
    + inversion Hok as [|? ? [Hsp _] _]; subst. cbn [fst] in Hsp.
      cbn [joined] in E. apply app_eq_nil in E. destruct E as [_ E].
      apply app_eq_nil in E. destruct E as [E _].
      now apply sp_nonempty in Hsp.
  - rewrite <- E. apply split_loop_joined; auto. rewrite E. simpl; lia.
Qed.

End Joined.

End SplitBy.

Lemma andSeparator_positive (s : str) (len : nat) :
  andSeparator s = Some len -> 1 <= len.
Proof.
  unfold andSeparator.
  destruct (starts_with [is_space] s && _ && _); [|discriminate].
  intros H; injection H as <-. lia.
Qed.

Lemma equalsSeparator_positive (s : str) (len : nat) :
  equalsSeparator s = Some len -> 1 <= len.
Proof.
  unfold equalsSeparator.
  destruct (starts_with [is_char EQUALS] _); [|discriminate].
  intros H; injection H as <-. lia.
Qed.

(** ** Splitting a key at the dots *)

Lemma split_on_nonempty (sep : char) (s : str) : split_on sep s <> [].
Proof.
  induction s as [|c t IH]; simpl; [discriminate|].
  destruct (N.eqb c sep); [discriminate|].
  destruct (split_on sep t); [contradiction|discriminate].
Qed.

Lemma split_on_app (sep : char) (a b : str) :
  split_on sep (a ++ sep :: b) = split_on sep a ++ split_on sep b.
Proof.
  induction a as [|c a IH]; simpl.
  - now rewrite N.eqb_refl.
  - destruct (N.eqb c sep); [now rewrite IH|]. rewrite IH.
    pose proof (split_on_nonempty sep a) as Hne.
    destruct (split_on sep a); [contradiction|reflexivity].
Qed.

Lemma split_on_plain (sep : char) (s : str) :
  forallb (is_not_char sep) s = true -> split_on sep s = [s].
Proof.
  induction s as [|c t IH]; intros H; [reflexivity|]. simpl in H |- *.
  apply andb_true_iff in H. destruct H as [Hc Ht].
  unfold is_not_char in Hc. apply negb_true_iff in Hc.
  now rewrite Hc, IH.
Qed.

Lemma pop_app (l1 l2 : list str) : l2 <> [] -> pop (l1 ++ l2) = pop l2.
Proof.
  intros H. unfold pop. rewrite rev_app_distr.
  destruct (rev l2) as [|x l] eqn:E; [|reflexivity].
  apply (f_equal (@rev str)) in E. rewrite rev_involutive in E.
  contradiction.
Qed.

(** [pop] after [split] is never [undefined]. *)
Lemma pop_split_on (sep : char) (s : str) :
  exists k, pop (split_on sep s) = Some k.
Proof.
  unfold pop. pose proof (split_on_nonempty sep s) as H.
  destruct (rev (split_on sep s)) as [|x l] eqn:E; [|now exists x].
  apply (f_equal (@rev str)) in E. rewrite rev_involutive in E. contradiction.
Qed.

(** The last segment of [alias.name] is [name]. *)
Lemma pop_split_on_alias (sep : char) (alias name : str) :
  forallb (is_not_char sep) name = true ->
  pop (split_on sep (alias ++ sep :: name)) = Some name.
Proof.
  intros H. rewrite split_on_app, pop_app by apply split_on_nonempty.
  now rewrite split_on_plain.
Qed.

(** ** One condition *)

Lemma equalsSeparator_first (c : char) (u : str) :
  is_space c = false -> is_char EQUALS c = false ->
  equalsSeparator (c :: u) = None.
Proof.
  intros Hs He. unfold equalsSeparator. cbn [run]. rewrite Hs.
  cbn [skipn]. now rewrite starts_with_1, He.
Qed.

Lemma equalsSeparator_without_equals (s : str) :
  forallb (is_not_char EQUALS) s = true -> equalsSeparator s = None.
Proof.
  intros H. unfold equalsSeparator.
  apply (forallb_skipn _ _ (run is_space s)) in H.
  destruct (skipn (run is_space s) s) as [|c u]; [reflexivity|].
  rewrite starts_with_1. simpl in H. apply andb_true_iff in H.
  destruct H as [H _]. unfold is_not_char in H. apply negb_true_iff in H.
  unfold is_char. now rewrite H.
Qed.

Lemma quiet_without_equals (s : str) :
  forallb (is_not_char EQUALS) s = true -> quiet equalsSeparator s [].
Proof.
  intros H k _. rewrite app_nil_r.
  apply equalsSeparator_without_equals, forallb_skipn, H.
Qed.

(** A condition without an equals sign is a key with an empty value. *)
Lemma split_without_equals (condition : str) :
  forallb (is_not_char EQUALS) condition = true ->
  split equalsRegEx condition = [condition].
Proof.
  intros H.
  apply split_quiet with (sep := equalsSeparator);
    [apply match_at_equalsRegEx|reflexivity|now apply quiet_without_equals].
Qed.

(** Every condition parses to an object with one property, whose key is the
    last dot segment of what stands before the first equals sign. *)
Lemma parseCondition_shape (condition : str) :
  exists key value,
    parseCondition condition = [(key, value)]
    /\ pop (split_on DOT match nth_error (split equalsRegEx condition) 0 with
                         | Some k => k
                         | None => []
                         end) = Some key.
Proof.
  unfold parseCondition.
  destruct (pop_split_on DOT match nth_error (split equalsRegEx condition) 0 with
                             | Some k => k
                             | None => []
                             end) as (key & Hkey).
  rewrite Hkey. eexists; eexists; split; reflexivity.
Qed.

Lemma propertyEntry_single (key value : str) :
  propertyEntry [(key, value)] = key ++ codes ": " ++ value.
Proof.
  unfold propertyEntry. cbn [object_keys map fst object_get].
  unfold str_eqb. destruct (list_eq_dec N.eq_dec key key); [reflexivity|].
  contradiction.
Qed.

Lemma plain_not_space (c : char) : is_plain c = true -> is_space c = false.
Proof.
  unfold is_plain. intros H. apply andb_true_iff in H.
  now apply negb_true_iff.
Qed.

Lemma plain_not_equals (c : char) : is_plain c = true -> is_char EQUALS c = false.
Proof.
  unfold is_plain, is_not_char, is_char. intros H. apply andb_true_iff in H.
  now apply negb_true_iff.
Qed.

Lemma forallb_weaken (A : Type) (p q : A -> bool) (l : list A) :
  (forall a, p a = true -> q a = true) ->
  forallb p l = true -> forallb q l = true.
Proof.
  intros Hpq H. rewrite forallb_forall in *. auto.
Qed.

Lemma run_not_starting (p : char -> bool) (s : str) :
  starts_with [p] s = false -> run p s = 0.
Proof.
  destruct s as [|c t]; [reflexivity|]. rewrite starts_with_1. simpl.
  now intros ->.
Qed.

Lemma run_app_stop (p : char -> bool) (a : str) (c : char) (b : str) :
  p c = false -> run p (a ++ c :: b) = run p a.
Proof.
  intros Hc. induction a as [|x a IH]; simpl; [now rewrite Hc|].
  destruct (p x); [now rewrite IH|reflexivity].
Qed.

Lemma run_all (p : char -> bool) (a : str) :
  forallb p a = true -> run p a = length a.
Proof.
  induction a as [|x a IH]; intros H; [reflexivity|]. simpl in H |- *.
  apply andb_true_iff in H. destruct H as [-> H]. now rewrite IH.
Qed.

Lemma run_app_all (p : char -> bool) (a b : str) :
  forallb p a = true -> run p (a ++ b) = length a + run p b.
Proof.
  induction a as [|x a IH]; intros H; [reflexivity|]. simpl in H.
  apply andb_true_iff in H. destruct H as [Hx Ha].
  cbn [app run length]. rewrite Hx, IH by exact Ha. reflexivity.
Qed.

Lemma starts_with_prefix (ps : list (char -> bool)) (a b : str) :
  starts_with ps a = true -> starts_with ps (a ++ b) = true.
Proof.
  revert a; induction ps as [|p ps IH]; intros a H; [reflexivity|].
  destruct a as [|x a]; [discriminate|]. simpl in H |- *.
  apply andb_true_iff in H. destruct H as [-> H]. now apply IH.
Qed.

Lemma skipn_app_l (A : Type) (n : nat) (a b : list A) :
  n <= length a -> skipn n (a ++ b) = skipn n a ++ b.
Proof.
  intros H. rewrite skipn_app. replace (n - length a) with 0 by lia.
  reflexivity.
Qed.

(** A well-formed condition parses to its property name and its value,
    whatever white space stands around the equals sign. *)
Lemma parseCondition_equality (al nm ws1 ws2 v : str) :
  forallb is_plain al = true -> forallb is_name nm = true ->
  forallb is_space ws1 = true -> forallb is_space ws2 = true ->
  forallb (is_not_char EQUALS) v = true ->
  starts_with [is_space] v = false ->
  parseCondition (al ++ [DOT] ++ nm ++ ws1 ++ [EQUALS] ++ ws2 ++ v)
  = [(nm, v)].
Proof.
  intros Hal Hnm H1 H2 Hv Hs.
  assert (Hnm' : forallb is_plain nm = true).
  { revert Hnm. apply forallb_weaken. unfold is_name. intros a Ha.
    now apply andb_true_iff in Ha. }
  assert (Hdot : forallb (is_not_char DOT) nm = true).
  { revert Hnm. apply forallb_weaken. unfold is_name. intros a Ha.
    now apply andb_true_iff in Ha. }
  assert (S2 : split equalsRegEx
                 ((al ++ [DOT] ++ nm) ++ (ws1 ++ [EQUALS] ++ ws2) ++ v)
               = [al ++ [DOT] ++ nm; v]).
  { apply split_two with (sep := equalsSeparator).
    - apply match_at_equalsRegEx.
    - apply equalsSeparator_positive.
    - destruct ws1; discriminate.
    - reflexivity.
    - apply quiet_class with (p := is_plain).
      + intros c u Hc. apply equalsSeparator_first;
          [now apply plain_not_space|now apply plain_not_equals].
      + rewrite !forallb_app, Hal, Hnm'. reflexivity.
    - unfold equalsSeparator. rewrite <- !app_assoc. cbn [app].
      rewrite run_app_stop, (run_all _ _ H1) by reflexivity.
      rewrite skipn_app, skipn_all, Nat.sub_diag. cbn [app skipn].
      rewrite starts_with_1. change (is_char EQUALS EQUALS) with true.
      cbv iota.
      replace (skipn (length ws1 + 1) (ws1 ++ EQUALS :: ws2 ++ v))
        with (ws2 ++ v).
      2:{ rewrite skipn_app, skipn_all2 by lia.
          replace (length ws1 + 1 - length ws1) with 1 by lia. reflexivity. }
      rewrite (@run_app_all _ _ _ H2), (@run_not_starting _ _ Hs).
      rewrite !length_app. cbn [length]. f_equal. lia.
    - now apply quiet_without_equals. }
  unfold parseCondition. rewrite <- !app_assoc in S2. rewrite S2.
  cbn [nth_error]. change ([DOT] ++ nm) with (DOT :: nm).
  now rewrite pop_split_on_alias.
Qed.

(** ** Conditions joined by AND *)

Lemma andSeparator_first (c : char) (u : str) :
  is_space c = false -> andSeparator (c :: u) = None.
Proof.
  intros H. unfold andSeparator. now rewrite starts_with_1, H.
Qed.

(** White space in front of an equals sign starts no separator. *)
Lemma andSeparator_before_equals (ws more : str) :
  forallb is_space ws = true -> andSeparator (ws ++ EQUALS :: more) = None.
Proof.
  intros Hws. unfold andSeparator.
  rewrite run_app_stop, (run_all _ _ Hws) by reflexivity.
  assert (E : skipn (length ws) (ws ++ EQUALS :: more) = EQUALS :: more).
  { rewrite skipn_app, skipn_all, Nat.sub_diag. reflexivity. }
  rewrite E.
  change (starts_with (map is_char_i (codes "AND")) (EQUALS :: more))
    with false.
  now rewrite andb_false_r.
Qed.

(** White space in front of a value starts no separator. *)
Lemma andSeparator_before_value (ws v more : str) :
  forallb is_space ws = true ->
  forallb is_plain v = true -> v <> [] -> is_and v = false ->
  starts_with [is_space] more = true \/ more = [] ->
  andSeparator (ws ++ v ++ more) = None.
Proof.
  intros Hws Hv Hne Hand Hmore. unfold andSeparator.
  assert (R : run is_space (ws ++ v ++ more) = length ws).
  { rewrite (@run_app_all _ _ _ Hws).
    destruct v as [|a v]; [contradiction|]. simpl in Hv.
    apply andb_true_iff in Hv. destruct Hv as [Ha _].
    cbn [app run]. rewrite (plain_not_space _ Ha). lia. }
  assert (E : skipn (length ws) (ws ++ v ++ more) = v ++ more).
  { rewrite skipn_app, skipn_all, Nat.sub_diag. reflexivity. }
  rewrite R, E, <- andb_assoc.
  replace (starts_with (map is_char_i (codes "AND")) (v ++ more)
           && starts_with [is_space] (skipn 3 (v ++ more))) with false;
    [now rewrite andb_false_r|].
  symmetry. unfold is_and in Hand.
  destruct v as [|a [|b [|c [|d v]]]]; [contradiction| | | |].
  - destruct Hmore as [Hm| ->]; [|simpl; now rewrite !andb_false_r].
    destruct more as [|m more]; [discriminate|].
    rewrite starts_with_1 in Hm. cbn [app codes map list_ascii_of_string starts_with].
    replace (is_char_i (N_of_ascii "N") m) with false;
      [now rewrite !andb_false_r|].
    symmetry. change (N_of_ascii "N") with 78%N. char_facts.
  - destruct Hmore as [Hm| ->]; [|simpl; now rewrite !andb_false_r].
    destruct more as [|m more]; [discriminate|].
    rewrite starts_with_1 in Hm. cbn [app codes map list_ascii_of_string starts_with].
    replace (is_char_i (N_of_ascii "D") m) with false;
      [now rewrite !andb_false_r|].
    symmetry. change (N_of_ascii "D") with 68%N. char_facts.
  - cbn [length Nat.eqb] in Hand. rewrite andb_true_r in Hand.
    cbn [app codes map list_ascii_of_string starts_with] in Hand |- *.
    rewrite andb_true_r in Hand.
    destruct (is_char_i (N_of_ascii "A") a); [|reflexivity].
    destruct (is_char_i (N_of_ascii "N") b); [|reflexivity].
    cbn [andb] in Hand |- *. rewrite Hand. reflexivity.
  - cbn [app skipn]. rewrite starts_with_1.
    simpl in Hv. repeat (apply andb_true_iff in Hv; destruct Hv as [? Hv]).
    rewrite (plain_not_space d) by assumption. apply andb_false_r.
Qed.

Lemma well_formed_parts (e : Equality) :
  well_formed e = true ->
  forallb is_plain (alias e) = true /\ forallb is_name (name e) = true
  /\ forallb is_space (before_equals e) = true
  /\ forallb is_space (after_equals e) = true
  /\ forallb is_plain (value e) = true /\ is_and (value e) = false
  /\ value e <> [].
Proof.
  unfold well_formed. intros H.
  repeat (apply andb_true_iff in H; destruct H as [H ?]).
  repeat split; auto.
  - now apply negb_true_iff.
  - intros E. rewrite E in *. discriminate.
Qed.

Lemma name_is_plain (l : str) :
  forallb is_name l = true -> forallb is_plain l = true.
Proof.
  apply forallb_weaken. unfold is_name. intros a Ha.
  now apply andb_true_iff in Ha.
Qed.

Lemma equalityText_head (e : Equality) (more : str) :
  well_formed e = true ->
  exists c u, equalityText e ++ more = c :: u /\ is_plain c = true.
Proof.
  intros H. destruct (well_formed_parts _ H) as (Ha & _).
  unfold equalityText. destruct (alias e) as [|a al].
  - exists DOT. eexists. split; reflexivity.
  - exists a. eexists. split; [reflexivity|].
    simpl in Ha. now apply andb_true_iff in Ha.
Qed.

(** No AND separator starts inside a well-formed condition that ends the
    text or stands in front of white space. *)
Lemma condition_quiet (e : Equality) (more : str) :
  well_formed e = true ->
  starts_with [is_space] more = true \/ more = [] ->
  quiet andSeparator (equalityText e) more.
Proof.
  intros H Hmore.
  destruct (well_formed_parts _ H) as (Ha & Hn & H1 & H2 & Hv & Hand & Hne).
  assert (P : forall a t, forallb is_plain a = true -> quiet andSeparator a t).
  { intros a t. apply quiet_class. intros c u Hc.
    apply andSeparator_first. now apply plain_not_space. }
  unfold equalityText.
  repeat apply quiet_app; try (apply P; auto using name_is_plain; reflexivity).
  - intros k Hk. rewrite <- app_assoc. cbn [app].
    apply andSeparator_before_equals, forallb_skipn, H1.
  - apply quiet_cons; [|apply quiet_nil]. now apply andSeparator_first.
  - intros k Hk. apply andSeparator_before_value; auto.
    + apply forallb_skipn, H2.
Qed.

Lemma is_and_separator_nonempty (sp : str) :
  is_and_separator sp = true -> sp <> [].
Proof. intros H ->. discriminate H. Qed.

Lemma is_and_separator_space (sp : str) :
  is_and_separator sp = true -> starts_with [is_space] sp = true.
Proof.
  unfold is_and_separator, andSeparator.
  destruct (starts_with [is_space] sp); [reflexivity|discriminate].
Qed.

(** A separator is found again in front of a text that does not start with
    white space. *)
Lemma andSeparator_app (sp : str) (c : char) (u : str) :
  is_and_separator sp = true -> is_space c = false ->
  andSeparator (sp ++ c :: u) = Some (length sp).
Proof.
  unfold is_and_separator, andSeparator. intros H Hc.
  set (n := run is_space sp) in *.
  destruct (starts_with [is_space] sp) eqn:E1; [|discriminate].
  destruct (starts_with (map is_char_i (codes "AND")) (skipn n sp)) eqn:E2;
    [|discriminate].
  destruct (starts_with [is_space] (skipn 3 (skipn n sp))) eqn:E3;
    [|discriminate].
  cbn [andb] in H. apply Nat.eqb_eq in H.
  assert (Ln : n <= length sp) by apply run_le.
  assert (L3 : 3 <= length (skipn n sp)).
  { apply starts_with_length in E2. exact E2. }
  rewrite run_app_stop by exact Hc. fold n.
  rewrite (@starts_with_prefix _ _ _ E1).
  rewrite (@skipn_app_l _ _ _ _ Ln), (@starts_with_prefix _ _ _ E2).
  rewrite (@skipn_app_l _ _ _ _ L3), (@starts_with_prefix _ _ _ E3).
  rewrite run_app_stop by exact Hc. cbn [andb]. now rewrite H.
Qed.

Lemma condition_after_and (sp : str) (e : Equality) (more : str) :
  is_and_separator sp = true -> well_formed e = true ->
  andSeparator (sp ++ equalityText e ++ more) = Some (length sp).
Proof.
  intros Hsp H. destruct (equalityText_head e more H) as (c & u & -> & Hc).
  apply andSeparator_app; [exact Hsp|now apply plain_not_space].
Qed.

(** The AND split gives the conditions back. *)
Lemma split_conjunction (e : Equality) (more : list (str * Equality)) :
  well_formed e = true ->
  forallb (fun x => is_and_separator (fst x) && well_formed (snd x)) more
  = true ->
  split andRegEx (conjunction e more)
  = equalityText e :: map (fun x => equalityText (snd x)) more.
Proof.
  intros He Hmore. unfold conjunction.
  rewrite split_joined with (sep := andSeparator)
                            (sp_ok := fun sp => is_and_separator sp = true)
                            (piece_ok := condition_ok).
  - now rewrite map_map.
  - apply match_at_andRegEx.
  - apply andSeparator_positive.
  - intros sp. apply is_and_separator_nonempty.
  - intros p (e0 & -> & H0). apply condition_quiet; auto.
  - intros p sp p' tail (e0 & -> & H0) Hsp _. apply condition_quiet; auto.
    left. apply starts_with_prefix. now apply is_and_separator_space.
  - intros sp p' tail Hsp (e0 & -> & H0). now apply condition_after_and.
  - now exists e.
  - apply Forall_forall. intros x Hx. apply in_map_iff in Hx.
    destruct Hx as ([sp e0] & <- & Hx). cbn [fst snd].
    rewrite forallb_forall in Hmore. specialize (Hmore _ Hx).
    cbn [fst snd] in Hmore. apply andb_true_iff in Hmore.
    destruct Hmore as [Hsp H0]. split; [exact Hsp|now exists e0].
  - reflexivity.
Qed.

Lemma parseCondition_well_formed (e : Equality) :
  well_formed e = true ->
  parseCondition (equalityText e) = [(name e, value e)].
Proof.
  intros H.
  destruct (well_formed_parts _ H) as (Ha & Hn & H1 & H2 & Hv & _ & Hne).
  apply parseCondition_equality; auto.
  - revert Hv. apply forallb_weaken. unfold is_plain. intros a Ha'.
    now apply andb_true_iff in Ha'.
  - destruct (value e) as [|c v]; [contradiction|]. rewrite starts_with_1.
    simpl in Hv. apply andb_true_iff in Hv. now apply plain_not_space.
Qed.

Lemma join_cons (sep x : str) (l : list str) :
  join sep (x :: l) = x ++ flat_map (fun y => sep ++ y) l.
Proof.
  revert x; induction l as [|y l IH]; intros x.
  - cbn [join flat_map]. now rewrite app_nil_r.
  - change (join sep (x :: y :: l)) with (x ++ sep ++ join sep (y :: l)).
    rewrite IH. cbn [flat_map]. now rewrite <- app_assoc.
Qed.

Lemma flat_map_in_ext (A B : Type) (f g : A -> list B) (l : list A) :
  (forall a, In a l -> f a = g a) -> flat_map f l = flat_map g l.
Proof.
  induction l as [|a l IH]; intros H; [reflexivity|]. cbn [flat_map].
  rewrite (H a (or_introl eq_refl)), IH; [reflexivity|].
  intros a' Ha. apply H. now right.
Qed.




Example properties_any_case_and_spacing :
  propertiesOf
    (parseConditions
       (codes "n.a=$p0" ++ [SPACE; LF; TAB] ++ codes "and  this1.b  = $p1"))
  = codes "a: $p0, b: $p1".
Proof. vm_compute. reflexivity. Qed.

(** ** Conditions that are not well formed *)

(** C8. The parsing of the captured condition text is total: every text
    splits into pieces and every piece, well formed or not, becomes an object
    with exactly one property, whose key is the last dot segment of what
    stands before the first equals sign ([pop] is never [undefined]).  A
    piece without an equals sign gets the empty string as its value, a piece
    with nothing around the equals sign an empty key and an empty value, and
    a key [alias.name] is cut down to [name] whatever the alias. *)
Theorem condition_parsing_total :
  (forall whereText,
      length (parseConditions whereText) = length (split andRegEx whereText)
      /\ Forall (fun cond => exists key value, cond = [(key, value)])
                (parseConditions whereText))
  /\ (forall condition,
         exists key value,
           parseCondition condition = [(key, value)]
           /\ pop (split_on DOT
                     match nth_error (split equalsRegEx condition) 0 with
                     | Some k => k
                     | None => []
                     end) = Some key)
  /\ (forall condition,
         forallb (is_not_char EQUALS) condition = true ->
         exists key, parseCondition condition = [(key, [])])
  /\ parseCondition [] = [([], [])]
  /\ parseCondition (codes "=") = [([], [])]
  /\ parseCondition (codes "this0.name") = [(codes "name", [])]
  /\ (forall al nm ws1 ws2 v,
         forallb is_plain al = true -> forallb is_name nm = true ->
         forallb is_space ws1 = true -> forallb is_space ws2 = true ->
         forallb (is_not_char EQUALS) v = true ->
         starts_with [is_space] v = false ->
         parseCondition (al ++ [DOT] ++ nm ++ ws1 ++ [EQUALS] ++ ws2 ++ v)
         = [(nm, v)]).
Proof.
  repeat split.
  - unfold parseConditions. apply length_map.
  - unfold parseConditions. apply Forall_forall. intros cond Hc.
    apply in_map_iff in Hc. destruct Hc as (condition & <- & _).
    destruct (parseCondition_shape condition) as (key & value & H & _).
    now exists key, value.
  - apply parseCondition_shape.
  - intros condition H. unfold parseCondition.
    rewrite split_without_equals by exact H. cbn [nth_error].
    destruct (pop_split_on DOT condition) as (key & ->). now exists key.
  - intros al nm ws1 ws2 v. apply parseCondition_equality.
Qed.

(** C7 (amended). A condition whose parsed key is empty still has a key, the
    empty string, so it contributes a colon, a space and its value to the
    properties body, not the empty string. *)
Theorem empty_key_entry (condition value : str) :
  parseCondition condition = [([], value)] ->
  propertyEntry (parseCondition condition) = codes ": " ++ value.
Proof.
  intros ->. apply propertyEntry_single.
Qed.

Lemma empty_key_entry_witness :
  parseCondition (codes "= 1") = [([], codes "1")]
  /\ propertyEntry (parseCondition (codes "= 1")) = codes ": 1".
Proof.
  split; [reflexivity|].
  apply (@empty_key_entry (codes "= 1") (codes "1")). reflexivity.
Defined.

(** C7 as stated fails: the condition [= 1] has an empty key and contributes
    [: 1], and the body of [= 1 AND n.b = 2] is [: 1, b: 2]. *)
Lemma empty_key_entry_not_empty :
  ~ (forall condition key value,
        parseCondition condition = [(key, value)] -> key = [] ->
        propertyEntry (parseCondition condition) = []).
Proof.
  intros H. specialize (H (codes "= 1") [] (codes "1") eq_refl eq_refl).
  vm_compute in H. discriminate H.
Qed.

Example properties_with_empty_key :
  propertiesOf (parseConditions (codes "= 1 AND n.b = 2")) = codes ": 1, b: 2".
Proof. vm_compute. reflexivity. Qed.

(** ** WHERE clauses that the pattern misses *)


(** C10. WHERE followed by white space only, or by an empty pair of
    parentheses: the pattern matches with an empty capture and the rewrite
    throws the same error as without WHERE; [getCypher] returns the
    fallback. *)
Theorem empty_where_condition_throws :
  Forall
    (fun subQueryStr =>
       occurs where_keyword subQueryStr = true
       /\ (exists i whereMatch,
              exec whereRegEx (stripMatch (padBlock subQueryStr))
              = Some (i, whereMatch)
              /\ get_capture 1 (captures whereMatch) = Some [])
       /\ transformCypherQuery (padBlock subQueryStr)
          = transformCypherQuery (padBlock (codes "MATCH (n:Person)"))
       /\ transformCypherQuery (padBlock subQueryStr) = noWhereClause
       /\ getCypher subQueryStr = fallback (padBlock subQueryStr))
    [codes "MATCH (n:Person) WHERE   "; codes "MATCH (n:Person) WHERE ()"].
Proof.
  repeat constructor;
    try (vm_compute; reflexivity);
    eexists; eexists; split; vm_compute; reflexivity.
Qed.

(** ** The search through a closed form of the match *)

Section ExecBy.

Variable r : regex.
Variable A : Type.
Variable sep : str -> option A.
Variable found : nat -> str -> A -> MatchState.

Hypothesis match_at_sep :
  forall i s, match_at r i s
              = match sep s with
                | Some a => Some (found i s a)
                | None => None
                end.

Lemma exec_from_quiet (pre post : str) (i : nat) :
  quiet sep pre post ->
  exec_from r i (pre ++ post) = exec_from r (i + length pre) post.
Proof.
  intros H. apply exec_from_skip. intros k Hk.
  now rewrite match_at_sep, (H k Hk).
Qed.

Lemma exec_from_here (s : str) (i : nat) (a : A) :
  sep s = Some a -> exec_from r i s = Some (i, found i s a).
Proof.
  intros H. destruct s as [|c t]; cbn [exec_from];
    now rewrite match_at_sep, H.
Qed.

Lemma exec_from_nowhere (s : str) (i : nat) :
  (forall k, k <= length s -> sep (skipn k s) = None) ->
  exec_from r i s = None.
Proof.
  intros H. apply exec_from_None. intros k Hk.
  now rewrite match_at_sep, (H k Hk).
Qed.

(** The first match splits the text: nothing matches inside the part in
    front of it. *)
Lemma exec_from_first (s : str) (i j : nat) (y : MatchState) :
  exec_from r i s = Some (j, y) ->
  exists k a, j = i + k /\ k <= length s
              /\ quiet sep (firstn k s) (skipn k s)
              /\ sep (skipn k s) = Some a /\ y = found j (skipn k s) a.
Proof.
  intros H. apply exec_from_Some in H.
  destruct H as (k & -> & Hk & Hm & Hn).
  rewrite match_at_sep in Hm.
  destruct (sep (skipn k s)) as [a|] eqn:E; [|discriminate].
  injection Hm as <-. exists k, a. repeat split; auto.
  intros k' Hk'. rewrite length_firstn in Hk'.
  specialize (Hn k' ltac:(lia)). rewrite match_at_sep in Hn.
  replace (skipn k' (firstn k s) ++ skipn k s) with (skipn k' s).
  - destruct (sep (skipn k' s)); [discriminate|reflexivity].
  - rewrite <- (firstn_skipn k s) at 1. rewrite skipn_app.
    rewrite length_firstn.
    replace (k' - Nat.min k (length s)) with 0 by lia. reflexivity.
Qed.

Lemma exec_from_nowhere_inv (s : str) (i : nat) :
  exec_from r i s = None ->
  forall k, k <= length s -> sep (skipn k s) = None.
Proof.
  revert i; induction s as [|c t IH]; intros i H k Hk; cbn [exec_from] in H.
  - rewrite match_at_sep in H. simpl in Hk.
    replace k with 0 by lia. simpl.
    destruct (sep []); [discriminate|reflexivity].
  - rewrite match_at_sep in H.
    destruct (sep (c :: t)) eqn:E; [discriminate|].
    destruct k as [|k]; [exact E|]. simpl. apply (IH _ H). simpl in Hk; lia.
Qed.

End ExecBy.

(** ** Replacement patterns *)

Section Substitution.

Variables matched before after : str.
Variable caps : list (nat * str).
Variable m : nat.

Let expand := getSubstitution matched before after caps m.

Lemma expand_plain (t : str) :
  forallb (is_not_char DOLLAR) t = true -> expand t = t.
Proof.
  induction t as [|c t IH]; intros H; [reflexivity|].
  simpl in H. apply andb_true_iff in H. destruct H as [Hc Ht].
  unfold expand in *. cbn [getSubstitution].
  unfold is_not_char in Hc. rewrite Hc. now rewrite IH.
Qed.

Lemma expand_plain_app (a t : str) :
  forallb (is_not_char DOLLAR) a = true -> expand (a ++ t) = a ++ expand t.
Proof.
  induction a as [|c a IH]; intros H; [reflexivity|].
  simpl in H. apply andb_true_iff in H. destruct H as [Hc Ha].
  unfold expand in *. cbn [app getSubstitution].
  unfold is_not_char in Hc. rewrite Hc. now rewrite IH.
Qed.

Lemma expand_matched (t : str) :
  expand (DOLLAR :: AMP :: t) = matched ++ expand t.
Proof. reflexivity. Qed.

(** A dollar sign in front of a character that makes no pattern stands for
    itself. *)
Lemma expand_dollar (c : char) (t : str) :
  is_special c = false ->
  expand (DOLLAR :: c :: t) = DOLLAR :: expand (c :: t).
Proof.
  unfold is_special. intros H.
  repeat (apply orb_false_iff in H; destruct H as [H ?]).
  unfold expand. cbn [getSubstitution].
  change (negb (N.eqb DOLLAR DOLLAR)) with false. cbv iota.
  repeat match goal with E : _ = false |- _ => rewrite E; clear E end.
  reflexivity.
Qed.

(** Text without dollar sign that does not start a pattern passes through
    behind any template. *)
Lemma expand_app_suffix (u : str) :
  forallb (is_not_char DOLLAR) u = true ->
  match u with [] => true | c :: _ => negb (is_special c) end = true ->
  forall t, expand (t ++ u) = expand t ++ u.
Proof.
  intros Hu Hhead.
  assert (Hd : match u with [] => true | c :: _ => negb (is_digit c) end = true).
  { destruct u as [|c0 u']; [reflexivity|]. apply negb_true_iff in Hhead.
    unfold is_special in Hhead. apply orb_false_iff in Hhead.
    apply negb_true_iff, Hhead. }
  assert (G : forall n t, length t <= n -> expand (t ++ u) = expand t ++ u).
  { induction n as [|n IH]; intros t Hl.
    - destruct t; [|simpl in Hl; lia]. simpl. now apply expand_plain.
    - destruct t as [|c t1]; [simpl; now apply expand_plain|].
      simpl in Hl. unfold expand in *. cbn [app getSubstitution].
      destruct (negb (N.eqb c DOLLAR)).
      { cbn [app]. f_equal. apply IH. lia. }
      destruct t1 as [|d t2].
      { destruct u as [|c0 u']; [reflexivity|].
        apply negb_true_iff in Hhead.
        pose proof (@expand_dollar c0 u' Hhead) as E.
        pose proof (expand_plain _ Hu) as P. unfold expand in E, P.
        rewrite P in E. exact E. }
      cbn [app].
      destruct (N.eqb d DOLLAR).
      { cbn [app]. f_equal. apply IH. simpl in Hl; lia. }
      destruct (N.eqb d AMP).
      { rewrite <- app_assoc. f_equal. apply IH. simpl in Hl; lia. }
      destruct (N.eqb d BACKTICK).
      { rewrite <- app_assoc. f_equal. apply IH. simpl in Hl; lia. }
      destruct (N.eqb d QUOTE).
      { rewrite <- app_assoc. f_equal. apply IH. simpl in Hl; lia. }
      assert (I1 : getSubstitution matched before after caps m (d :: t2 ++ u)
                   = getSubstitution matched before after caps m (d :: t2) ++ u).
      { apply (IH (d :: t2)). simpl in *; lia. }
      assert (I2 : getSubstitution matched before after caps m (t2 ++ u)
                   = getSubstitution matched before after caps m t2 ++ u).
      { apply IH. simpl in *; lia. }
      destruct (is_digit d).
      2:{ cbn [app]. now rewrite I1. }
      cbv zeta. rewrite I1, I2.
      assert (S1 :
        (if (1 <=? N.to_nat (d - 48)) && (N.to_nat (d - 48) <=? m)
         then match get_capture (N.to_nat (d - 48)) caps with
              | Some v => v
              | None => []
              end ++ getSubstitution matched before after caps m t2 ++ u
         else DOLLAR
              :: getSubstitution matched before after caps m (d :: t2) ++ u)
        = (if (1 <=? N.to_nat (d - 48)) && (N.to_nat (d - 48) <=? m)
           then match get_capture (N.to_nat (d - 48)) caps with
                | Some v => v
                | None => []
                end ++ getSubstitution matched before after caps m t2
           else DOLLAR
                :: getSubstitution matched before after caps m (d :: t2)) ++ u).
      { destruct ((1 <=? N.to_nat (d - 48)) && (N.to_nat (d - 48) <=? m));
          [now rewrite app_assoc|reflexivity]. }
      destruct t2 as [|d2 t3].
      { cbn [app]. destruct u as [|c0 u']; [exact S1|].
        apply negb_true_iff in Hd. rewrite Hd. exact S1. }
      cbn [app]. destruct (is_digit d2); [|exact S1].
      destruct (10 * N.to_nat (d - 48) + N.to_nat (d2 - 48) <=? m);
        [|exact S1].
      destruct (1 <=? 10 * N.to_nat (d - 48) + N.to_nat (d2 - 48)).
      + rewrite <- app_assoc. rewrite (IH t3) by (simpl in Hl; lia).
        reflexivity.
      + reflexivity. }
  intros t. now apply (G (length t)).
Qed.

End Substitution.

(** ** The label marker *)

Lemma run_firstn (p : char -> bool) (s : str) :
  forallb p (firstn (run p s) s) = true.
Proof.
  induction s as [|c t IH]; [reflexivity|]. simpl.
  destruct (p c) eqn:E; [|reflexivity]. simpl. now rewrite E.
Qed.

Lemma starts_with_char (a : char) (s : str) :
  starts_with [is_char a] s = true -> exists t, s = a :: t.
Proof.
  destruct s as [|c t]; [discriminate|]. rewrite starts_with_1.
  unfold is_char. intros H. apply N.eqb_eq in H. subst c. now exists t.
Qed.


Lemma match_at_labelMarker (i : nat) (s : str) :
  match_at labelRegEx i s
  = match labelMarker s with
    | Some a => Some (mkState (i + snd a) (skipn (snd a) s)
                              [(1, firstn (fst a) (skipn 1 s))])
    | None => None
    end.
Proof.
  rewrite match_at_labelRegEx. now destruct (labelMarker s) as [[l len]|].
Qed.

(** The injection where no label marker stands in the pattern. *)
Lemma injectProperties_no_marker (properties pattern : str) :
  (forall k, k <= length pattern -> labelMarker (skipn k pattern) = None) ->
  injectProperties properties pattern = pattern.
Proof.
  intros H. unfold injectProperties, replace, exec.
  now rewrite (@exec_from_nowhere _ _ _ _ match_at_labelMarker _ _ H).
Qed.

(** The injection at the first label marker. *)
Lemma injectProperties_marker (properties pre label ws more : str) :
  quiet labelMarker pre (COLON :: label ++ ws ++ RPAREN :: more) ->
  labelMarker (COLON :: label ++ ws ++ RPAREN :: more)
  = Some (length label, 1 + length label + length ws) ->
  injectProperties properties (pre ++ COLON :: label ++ ws ++ RPAREN :: more)
  = pre ++ (COLON :: label ++ ws) ++ codes " { "
    ++ getSubstitution (COLON :: label ++ ws) pre (RPAREN :: more)
         [(1, label)] 1 properties
    ++ codes " }" ++ RPAREN :: more.
Proof.
  intros Hq Hm. unfold injectProperties, replace, exec.
  rewrite (@exec_from_quiet _ _ _ _ match_at_labelMarker _ _ _ Hq).
  rewrite (@exec_from_here _ _ _ _ match_at_labelMarker _ _ _ Hm).
  cbn [fst snd Nat.add rest endIndex captures]. unfold substitute.
  cbn [endIndex rest captures].
  change (groups labelRegEx) with 1.
  rewrite firstn_app, firstn_all, Nat.sub_diag. cbn [firstn]. rewrite app_nil_r.
  rewrite skipn_app, skipn_all, Nat.sub_diag. cbn [skipn app].
  replace (length pre + S (length label + length ws) - length pre)
    with (length (COLON :: label ++ ws))
    by (cbn [length]; rewrite length_app; lia).
  replace (S (length label + length ws))
    with (length (COLON :: label ++ ws))
    by (cbn [length]; rewrite length_app; lia).
  assert (E1 : firstn (length (COLON :: label ++ ws))
                      (COLON :: label ++ ws ++ RPAREN :: more)
               = COLON :: label ++ ws).
  { replace (COLON :: label ++ ws ++ RPAREN :: more)
      with ((COLON :: label ++ ws) ++ RPAREN :: more)
      by (cbn [app]; now rewrite <- app_assoc).
    rewrite firstn_app, firstn_all, Nat.sub_diag.
    cbn [firstn]. now rewrite app_nil_r. }
  assert (E2 : skipn (length label + length ws)
                     (label ++ ws ++ RPAREN :: more)
               = RPAREN :: more).
  { rewrite app_assoc, <- length_app, skipn_app, skipn_all, Nat.sub_diag.
    reflexivity. }
  assert (E3 : firstn (length label) (label ++ ws ++ RPAREN :: more) = label).
  { rewrite firstn_app, firstn_all, Nat.sub_diag. cbn [firstn].
    now rewrite app_nil_r. }
  rewrite E1, E2, E3. f_equal.
  change (codes "$& { " ++ properties ++ codes " }")
    with (DOLLAR :: AMP :: codes " { " ++ properties ++ codes " }").
  rewrite expand_matched, expand_plain_app by reflexivity.
  rewrite expand_app_suffix by reflexivity.
  cbn [app]. now rewrite <- !app_assoc.
Qed.

Lemma expand_plain_template (matched before after : str)
      (caps : list (nat * str)) (m : nat) (t : str) :
  plain_template t = true ->
  getSubstitution matched before after caps m t = t.
Proof.
  induction t as [|c t IH]; intros H; [reflexivity|].
  cbn [plain_template] in H. apply andb_true_iff in H. destruct H as [Hc Ht].
  destruct (N.eqb_spec c DOLLAR) as [->|Hne].
  - destruct t as [|d t']; [reflexivity|].
    apply negb_true_iff in Hc. rewrite expand_dollar by exact Hc.
    now rewrite IH.
  - cbn [getSubstitution]. apply N.eqb_neq in Hne. rewrite Hne.
    cbn [negb]. now rewrite IH.
Qed.

(** The steps of a rewrite that does not throw. *)
Lemma transformCypherQuery_steps (cypherFragment out : str) :
  transformCypherQuery cypherFragment = inl out ->
  exists i whereMatch whereText,
    exec whereRegEx (stripMatch cypherFragment) = Some (i, whereMatch)
    /\ get_capture 1 (captures whereMatch) = Some whereText
    /\ whereText <> []
    /\ out = removeVariableNames
               (injectProperties
                  (propertiesOf (parseConditions whereText))
                  (replace whereRegEx [] (stripMatch cypherFragment))).
Proof.
  unfold transformCypherQuery. intros H.
  destruct (exec whereRegEx (stripMatch cypherFragment)) as [[i y]|];
    [|discriminate].
  destruct (get_capture 1 (captures y)) as [[|c t]|] eqn:E; try discriminate.
  injection H as H. subst out. exists i, y, (c :: t).
  split; [reflexivity|]. split; [exact E|].
  split; [discriminate|reflexivity].
Qed.

Example inject_first_label_only :
  injectProperties (codes "a: $p") (codes "(x:`A b` )-[:R]->(y:B)")
  = codes "(x:`A b`  { a: $p })-[:R]->(y:B)".
Proof. vm_compute. reflexivity. Qed.

Example inject_expands_patterns :
  injectProperties (codes "a: $1") (codes "(x:A)") = codes "(x:A { a: A })".
Proof. vm_compute. reflexivity. Qed.

(** ** Removing the variable names *)

Lemma variableReference_positive (s : str) (len : nat) :
  variableReference s = Some len -> 2 <= len /\ s <> [].
Proof.
  unfold variableReference.
  destruct (starts_with [is_char LPAREN] s) eqn:E; [|discriminate].
  destruct (1 <=? run is_word (skipn 1 s)); [|discriminate].
  destruct (starts_with [is_char COLON] (skipn (1 + run is_word (skipn 1 s)) s));
    [|discriminate].
  cbn [andb]. intros H; injection H as <-. split; [lia|].
  intros ->. simpl in E. discriminate E.
Qed.

Lemma match_at_variableReference (i : nat) (s : str) :
  match_at variableRegEx i s
  = match variableReference s with
    | Some len => Some (mkState (i + len) (skipn len s) [(1, [COLON])])
    | None => None
    end.
Proof. apply match_at_variableRegEx. Qed.

Lemma dropNames_skip (s : str) (k : nat) :
  dropNames k s = dropNames 0 (skipn k s).
Proof.
  revert k; induction s as [|c t IH]; intros [|k]; try reflexivity.
  cbn [dropNames skipn]. apply IH.
Qed.

Lemma dropNames_here (s : str) (len : nat) :
  variableReference s = Some len ->
  dropNames 0 s = LPAREN :: COLON :: dropNames 0 (skipn len s).
Proof.
  intros H. destruct (variableReference_positive _ H) as [Hl Hs].
  destruct s as [|c t]; [contradiction|]. cbn [dropNames]. rewrite H.
  rewrite dropNames_skip. destruct len as [|len]; [lia|].
  cbn [Nat.sub skipn]. now rewrite Nat.sub_0_r.
Qed.

Lemma dropNames_quiet (pre post : str) :
  quiet variableReference pre post ->
  dropNames 0 (pre ++ post) = pre ++ dropNames 0 post.
Proof.
  induction pre as [|c pre IH]; intros H; [reflexivity|].
  cbn [app dropNames]. pose proof (H 0 (Nat.lt_0_succ _)) as H0.
  cbn [skipn app] in H0. rewrite H0. f_equal. apply IH.
  eapply quiet_tail; eauto.
Qed.

Lemma substitute_variable (whole : str) (j : nat) (y : MatchState) :
  captures y = [(1, [COLON])] ->
  substitute variableRegEx (codes "($1") whole j y = [LPAREN; COLON].
Proof. unfold substitute. intros ->. reflexivity. Qed.

(** The global replacement drops the names. *)
Lemma replace_all_dropNames (fuel : nat) :
  forall (whole : str) (i : nat) (s : str),
    length s < fuel ->
    replace_all_from fuel variableRegEx (codes "($1") whole i s
    = dropNames 0 s.
Proof.
  induction fuel as [|fuel IH]; intros whole i s Hf; [lia|].
  cbn [replace_all_from].
  destruct (exec_from variableRegEx i s) as [[j y]|] eqn:E.
  - destruct (@exec_from_first _ _ _ _ match_at_variableReference _ _ _ _ E)
      as (k & len & -> & Hk & Hq & Hr & ->).
    destruct (@variableReference_positive _ _ Hr) as [Hl Hs].
    rewrite substitute_variable by reflexivity.
    cbn [endIndex rest].
    replace (i + k + len =? i + k) with false
      by (symmetry; apply Nat.eqb_neq; lia).
    replace (i + k - i) with k by lia.
    rewrite IH.
    + rewrite <- (firstn_skipn k s) at 3.
      rewrite (@dropNames_quiet _ _ Hq), (@dropNames_here _ _ Hr). reflexivity.
    + rewrite !length_skipn.
      assert (0 < length (skipn k s)) by (destruct (skipn k s); [contradiction|simpl; lia]).
      rewrite length_skipn in H. lia.
  - pose proof (@exec_from_nowhere_inv _ _ _ _ match_at_variableReference _ _ E)
      as H.
    rewrite <- (app_nil_r s) at 2. rewrite dropNames_quiet.
    + cbn [dropNames]. now rewrite app_nil_r.
    + intros k Hk. rewrite app_nil_r. apply H. lia.
Qed.

Lemma removeVariableNames_dropNames (transformed : str) :
  removeVariableNames transformed = dropNames 0 transformed.
Proof.
  unfold removeVariableNames, replace_all. apply replace_all_dropNames. lia.
Qed.



Lemma variableReference_name (v b : str) :
  v <> [] -> forallb is_word v = true ->
  variableReference (LPAREN :: v ++ COLON :: b) = Some (1 + length v + 1).
Proof.
  intros Hne Hv. unfold variableReference.
  change (skipn 1 (LPAREN :: v ++ COLON :: b)) with (v ++ COLON :: b).
  rewrite run_app_stop, (run_all _ _ Hv) by reflexivity.
  change (skipn (1 + length v) (LPAREN :: v ++ COLON :: b))
    with (skipn (length v) (v ++ COLON :: b)).
  rewrite skipn_app, skipn_all, Nat.sub_diag. cbn [app skipn].
  destruct v as [|x v]; [contradiction|]. reflexivity.
Qed.



Example removeVariableNames_all :
  removeVariableNames (codes "(a:A { x: 1 })-[r:R]->(b:B)<-[:S]-(c)")
  = codes "(:A { x: 1 })-[r:R]->(:B)<-[:S]-(c)".
Proof. vm_compute. reflexivity. Qed.

(** ** When the rewrite throws *)

Lemma where_keyword_first (c : char) (t : str) :
  is_char_i 87%N c = false -> starts_with where_keyword (c :: t) = false.
Proof. intros H. cbn. now rewrite H. Qed.

Lemma dropClose_nil (x : str) : dropClose x = [] -> length x <= 1.
Proof.
  destruct x as [|c [|c' t]]; simpl; try lia.
  destruct (dropClose (c' :: t)); discriminate.
Qed.

Lemma conditionText_nil (r : str) : conditionText r = [] -> length r <= 2.
Proof.
  unfold conditionText, dropOpen. destruct r as [|c t]; [simpl; lia|].
  destruct (N.eqb c LPAREN); intros H; apply dropClose_nil in H;
    simpl in *; lia.
Qed.

(** Behind a WHERE keyword with an empty condition text no other WHERE
    keyword follows. *)
Lemma where_empty_last (s : str) (k : nat) :
  whereCondition s = Some [] -> 1 <= k ->
  starts_with where_keyword (skipn k s) = false.
Proof.
  unfold whereCondition.
  destruct (starts_with where_keyword s) eqn:K; [|discriminate].
  set (n := run is_space (skipn 5 s)).
  destruct (forallb is_dot (skipn (5 + n) s)); [|discriminate].
  intros H Hk. injection H as H. apply conditionText_nil in H.
  destruct s as [|c0 [|c1 [|c2 [|c3 [|c4 s5]]]]];
    try (apply starts_with_length in K; cbn in K; lia).
  cbn in K. repeat (apply andb_true_iff in K; destruct K as [? K]).
  change (skipn 5 (c0 :: c1 :: c2 :: c3 :: c4 :: s5)) with s5 in n.
  change (skipn (5 + n) (c0 :: c1 :: c2 :: c3 :: c4 :: s5))
    with (skipn n s5) in H.
  destruct k as [|[|[|[|[|k]]]]]; [lia| | | | |];
    try (cbn [skipn]; apply where_keyword_first; char_facts).
  change (skipn (S (S (S (S (S k))))) (c0 :: c1 :: c2 :: c3 :: c4 :: s5))
    with (skipn k s5).
  destruct (Nat.lt_ge_cases k n) as [L|L].
  - pose proof (run_starts_with is_space s5 L) as Hs.
    destruct (skipn k s5) as [|c t]; [reflexivity|].
    rewrite starts_with_1 in Hs. apply where_keyword_first. char_facts.
  - destruct (starts_with where_keyword (skipn k s5)) eqn:E; [|reflexivity].
    apply starts_with_length in E. rewrite length_skipn in E, H.
    cbn in E. lia.
Qed.

Lemma whereClause_without_keyword (t : str) :
  (forall k, starts_with where_keyword (skipn k t) = false) ->
  whereClause t = false.
Proof.
  induction t as [|c t IH]; intros H.
  - reflexivity.
  - cbn [whereClause]. unfold whereCondition at 1.
    rewrite (H 0 : starts_with where_keyword (c :: t) = false).
    cbn [orb]. apply IH. intros k. apply (H (S k)).
Qed.

Lemma throws_from_whereClause (s : str) (i : nat) :
  throws_from i s = negb (whereClause s).
Proof.
  revert i; induction s as [|c t IH]; intros i.
  - reflexivity.
  - unfold throws_from in *. cbn [exec_from whereClause].
    rewrite match_at_whereRegEx.
    destruct (whereCondition (c :: t)) as [[|x l]|] eqn:E.
    + cbn [captures get_capture Nat.eqb orb].
      rewrite whereClause_without_keyword; [reflexivity|].
      intros k. apply (@where_empty_last (c :: t) (S k) E). lia.
    + reflexivity.
    + cbn [orb]. apply IH.
Qed.

Lemma transformCypherQuery_without_keyword (cypherFragment : str) :
  occurs where_keyword cypherFragment = false ->
  transformCypherQuery cypherFragment = noWhereClause.
Proof.
  intros H. unfold transformCypherQuery, exec.
  destruct (stripMatch_suffix cypherFragment) as (n & ->).
  now rewrite exec_where_None by now apply occurs_skipn.
Qed.

(** C3 (amended). The rewrite throws if and only if, in the fragment left
    after MATCH was stripped, no WHERE keyword is followed by white space and
    then, up to the end of the fragment and without a line terminator, by a
    condition text that is not empty once one parenthesis in front and one
    at the end are left out.  That is its only error; a fragment without the
    keyword WHERE always throws. *)
Theorem transformCypherQuery_throws (cypherFragment : str) :
  (transformCypherQuery cypherFragment = noWhereClause
   <-> whereClause (stripMatch cypherFragment) = false)
  /\ (forall e, transformCypherQuery cypherFragment = inr e ->
                e = Error "No WHERE clause found.")
  /\ (whereClause (stripMatch cypherFragment) = true ->
      exists out, transformCypherQuery cypherFragment = inl out)
  /\ (occurs where_keyword cypherFragment = false ->
      transformCypherQuery cypherFragment = noWhereClause).
Proof.
  pose proof (transformCypherQuery_without_keyword cypherFragment) as N.
  pose proof (throws_from_whereClause (stripMatch cypherFragment) 0) as T.
  unfold throws_from in T.
  fold (exec whereRegEx (stripMatch cypherFragment)) in T.
  revert N. unfold transformCypherQuery, noWhereClause.
  destruct (exec whereRegEx (stripMatch cypherFragment)) as [[i y]|];
    [destruct (get_capture 1 (captures y)) as [[|x l]|]|];
    destruct (whereClause (stripMatch cypherFragment));
    try discriminate T; intros N;
    (split; [split; intros; (reflexivity || discriminate)|]);
    (split; [intros e He; (discriminate He || now injection He as <-)|]);
    (split; [intros; ((eexists; reflexivity) || discriminate)|exact N]).
Qed.

(** C3 as stated fails: a fragment whose WHERE clause is followed by another
    line has the keyword WHERE and makes the rewrite throw. *)
Lemma where_clause_present_but_thrown :
  ~ (forall cypherFragment,
        transformCypherQuery cypherFragment = noWhereClause
        <-> occurs where_keyword cypherFragment = false).
Proof.
  intros H.
  specialize (H (codes "MATCH (n:Person) WHERE n.a = 1" ++ [LF]
                   ++ codes "RETURN n")).
  destruct H as [H _]. specialize (H eq_refl). vm_compute in H.
  discriminate H.
Qed.

(** ** One node, one condition *)

Lemma word_forallb (p : char -> bool) (w : str) :
  (forall c, is_word c = true -> p c = true) ->
  forallb is_word w = true -> forallb p w = true.
Proof. apply forallb_weaken. Qed.

Lemma word_not (a : char) (w : str) :
  In a [TAB; LF; SPACE; DOLLAR; AMP; QUOTE; LPAREN; RPAREN; DOT; COLON;
        EQUALS; BACKTICK] ->
  forallb is_word w = true -> forallb (is_not_char a) w = true.
Proof.
  intros Ha. apply word_forallb. intros c Hc. unfold is_not_char.
  now rewrite (@word_not_char a c Hc Ha).
Qed.

Lemma word_is_plain (c : char) : is_word c = true -> is_plain c = true.
Proof.
  intros H. unfold is_plain, is_not_char.
  rewrite (word_not_space _ H), (@word_not_char EQUALS c H); [reflexivity|].
  simpl; tauto.
Qed.

Lemma word_is_name (c : char) : is_word c = true -> is_name c = true.
Proof.
  intros H. unfold is_name, is_not_char.
  rewrite (word_is_plain _ H), (@word_not_char DOT c H); [reflexivity|].
  simpl; tauto.
Qed.

(** A text without line feed is padded by one tab in front. *)
Lemma padBlock_line (block : str) :
  forallb (is_not_char LF) block = true -> padBlock block = TAB :: block.
Proof.
  intros H. unfold padBlock. f_equal.
  induction block as [|c t IH]; [reflexivity|]. simpl in H |- *.
  apply andb_true_iff in H. destruct H as [Hc Ht].
  unfold is_not_char in Hc. apply negb_true_iff in Hc. rewrite Hc.
  cbn [app]. now rewrite IH.
Qed.

Lemma match_at_matchRegEx (i : nat) (s : str) :
  match_at matchRegEx i s
  = if Nat.eqb i 0
    then match matchPrefix s with
         | Some len => Some (advance (mkState i s []) len)
         | None => None
         end
    else None.
Proof.
  unfold match_at, matchPrefix.
  change matchRegEx
    with (Seq AssertStart
              (Seq (Star true (CharSet is_space))
                   (Seq (lit_i (codes "MATCH"))
                        (Seq (plus true (CharSet is_space)) Empty)))).
  rewrite matches_Seq.
  change (matches AssertStart (mkState i s []))
    with (if Nat.eqb i 0 then [mkState i s []] else []).
  destruct (Nat.eqb i 0); [|reflexivity].
  cbn [flat_map]. rewrite app_nil_r, matches_Seq, greedy_star_then.
  - rewrite matches_Seq, matches_lit_i. cbn [advance rest].
    destruct (starts_with (map is_char_i (codes "MATCH"))
                (skipn (run is_space s) s)); [|reflexivity].
    cbn [andb flat_map]. rewrite app_nil_r, matches_Seq_Empty, hd_greedy_plus.
    rewrite !advance_advance. cbn [advance rest].
    change (length (codes "MATCH")) with 5. rewrite <- Nat.add_assoc.
    destruct (starts_with [is_space] (skipn (run is_space s + 5) s));
      reflexivity.
  - intros y Hy. rewrite matches_Seq, matches_lit_i.
    destruct (rest y) as [|c t]; [discriminate|].
    rewrite starts_with_1 in Hy.
    replace (starts_with (map is_char_i (codes "MATCH")) (c :: t)) with false;
      [reflexivity|].
    symmetry. cbn [codes map list_ascii_of_string starts_with].
    replace (is_char_i (N_of_ascii "M") c) with false; [reflexivity|].
    symmetry. change (N_of_ascii "M") with 77%N. char_facts.
Qed.

(** Line 60 in closed form: the prefix that [matchRegEx] matches is cut
    off. *)
Lemma stripMatch_prefix (cypherFragment : str) :
  stripMatch cypherFragment
  = match matchPrefix cypherFragment with
    | Some len => skipn len cypherFragment
    | None => cypherFragment
    end.
Proof.
  unfold stripMatch, replace, exec.
  assert (N : forall t i, exec_from matchRegEx (S i) t = None).
  { intros t i. apply exec_from_None. intros k _.
    now rewrite match_at_matchRegEx. }
  destruct cypherFragment as [|c t]; cbn [exec_from];
    rewrite match_at_matchRegEx; cbn [Nat.eqb].
  - destruct (matchPrefix []); reflexivity.
  - destruct (matchPrefix (c :: t)); [reflexivity|]. now rewrite N.
Qed.

(** MATCH and the indentation in front of it are stripped. *)
Lemma stripMatch_indented (pattern : str) :
  stripMatch (TAB :: codes "MATCH " ++ LPAREN :: pattern) = LPAREN :: pattern.
Proof. rewrite stripMatch_prefix. reflexivity. Qed.

(** A pattern that needs a character outside a run of word characters cannot
    start inside the run when a mark follows it. *)
Lemma starts_with_blocked (ps : list (char -> bool)) :
  forall (w : str) (c : char) (more : str),
    ps <> [] ->
    (forall p, In p ps -> p c = false) ->
    (forall a, In a w -> last ps (fun _ => true) a = false) ->
    starts_with ps (w ++ c :: more) = false.
Proof.
  induction ps as [|p ps IH]; intros w c more Hne Hc Hw; [contradiction|].
  destruct w as [|a w].
  - cbn [app starts_with]. now rewrite (Hc p (or_introl eq_refl)).
  - cbn [app starts_with]. destruct ps as [|p' ps].
    + cbn [last] in Hw. now rewrite (Hw a (or_introl eq_refl)).
    + rewrite IH; [apply andb_false_r|discriminate| |].
      * intros q Hq. apply Hc. now right.
      * intros b Hb. apply (Hw b). now right.
Qed.

Lemma whereCondition_first (s : str) :
  starts_with where_keyword s = false -> whereCondition s = None.
Proof. unfold whereCondition. now intros ->. Qed.

(** No WHERE keyword starts inside a name that a colon or a closing
    parenthesis follows. *)
Lemma quiet_where_word (w : str) (c : char) (more : str) :
  forallb is_word w = true -> c = COLON \/ c = RPAREN ->
  quiet whereCondition w (c :: more).
Proof.
  intros Hw Hc k Hk. apply whereCondition_first, starts_with_blocked.
  - discriminate.
  - intros p Hp. cbn in Hp.
    destruct Hc as [-> | ->];
      repeat (destruct Hp as [<-|Hp]; [reflexivity|]); destruct Hp.
  - intros a Ha. cbn. apply word_not_space.
    apply (forallb_skipn _ _ k) in Hw. rewrite forallb_forall in Hw. auto.
Qed.

Lemma dropClose_app (a b : str) :
  b <> [] -> forallb (is_not_char RPAREN) b = true ->
  dropClose (a ++ b) = a ++ b.
Proof.
  intros Hne Hb. induction a as [|x a IH].
  - cbn [app]. clear Hne. induction b as [|y b IHb]; [reflexivity|].
    simpl in Hb. apply andb_true_iff in Hb. destruct Hb as [Hy Hb].
    destruct b as [|z b].
    + simpl. unfold is_not_char in Hy. apply negb_true_iff in Hy.
      now rewrite Hy.
    + change (dropClose (y :: z :: b)) with (y :: dropClose (z :: b)).
      now rewrite IHb.
  - cbn [app]. destruct (a ++ b) as [|y l] eqn:E.
    + apply app_eq_nil in E. destruct E as [_ E]. contradiction.
    + change (dropClose (x :: y :: l)) with (x :: dropClose (y :: l)).
      now rewrite IH.
Qed.

(** The condition text on the line behind WHERE. *)
Lemma whereCondition_line (cond : str) :
  starts_with [is_word] cond = true -> forallb is_dot cond = true ->
  dropClose cond = cond ->
  whereCondition (codes "WHERE " ++ cond) = Some cond.
Proof.
  intros Hw Hd Hc. unfold whereCondition.
  change (starts_with where_keyword (codes "WHERE " ++ cond)) with true.
  change (skipn 5 (codes "WHERE " ++ cond)) with (SPACE :: cond).
  destruct cond as [|c t]; [discriminate|]. rewrite starts_with_1 in Hw.
  cbn [run]. change (is_space SPACE) with true. cbv iota.
  rewrite (word_not_space _ Hw).
  change (skipn (5 + 1) (codes "WHERE " ++ c :: t)) with (c :: t).
  rewrite Hd. unfold conditionText, dropOpen.
  rewrite (@word_not_char LPAREN c Hw) by (simpl; tauto). now rewrite Hc.
Qed.

(** The first WHERE clause of a fragment: where it is found, and what is
    left of the fragment without it. *)
Lemma exec_where_at (pre post c : str) :
  quiet whereCondition pre post -> whereCondition post = Some c ->
  exec whereRegEx (pre ++ post)
  = Some (length pre, mkState (length pre + length post) [] [(1, c)]).
Proof.
  intros Hq Hc. unfold exec.
  rewrite (@exec_from_quiet _ _ _ _ match_at_whereRegEx _ _ _ Hq).
  now rewrite (@exec_from_here _ _ _ _ match_at_whereRegEx _ _ _ Hc).
Qed.

Lemma replace_where_at (pre post c : str) :
  quiet whereCondition pre post -> whereCondition post = Some c ->
  replace whereRegEx [] (pre ++ post) = pre.
Proof.
  intros Hq Hc. unfold replace. rewrite (exec_where_at Hq Hc).
  unfold substitute. cbn [getSubstitution rest app].
  rewrite firstn_app, firstn_all, Nat.sub_diag. cbn [firstn].
  now rewrite !app_nil_r.
Qed.

Lemma transformCypherQuery_at (cypherFragment pre post c : str) :
  stripMatch cypherFragment = pre ++ post ->
  quiet whereCondition pre post -> whereCondition post = Some c -> c <> [] ->
  transformCypherQuery cypherFragment
  = inl (removeVariableNames
           (injectProperties (propertiesOf (parseConditions c)) pre)).
Proof.
  intros Hs Hq Hc Hne. unfold transformCypherQuery. rewrite Hs.
  rewrite (exec_where_at Hq Hc), (replace_where_at Hq Hc).
  cbn [captures get_capture Nat.eqb].
  destruct c; [contradiction|reflexivity].
Qed.

Lemma plain_template_plain (t : str) :
  forallb (is_not_char DOLLAR) t = true -> plain_template t = true.
Proof.
  induction t as [|c t IH]; intros H; [reflexivity|].
  simpl in H. apply andb_true_iff in H. destruct H as [Hc Ht].
  cbn [plain_template]. unfold is_not_char in Hc.
  apply negb_true_iff in Hc. rewrite Hc. now apply IH.
Qed.

Lemma plain_template_app (a t : str) :
  forallb (is_not_char DOLLAR) a = true ->
  plain_template (a ++ t) = plain_template t.
Proof.
  induction a as [|c a IH]; intros H; [reflexivity|].
  simpl in H. apply andb_true_iff in H. destruct H as [Hc Ha].
  cbn [app plain_template]. unfold is_not_char in Hc.
  apply negb_true_iff in Hc. rewrite Hc. now apply IH.
Qed.

(** A parameter whose name does not start with a digit is no replacement
    pattern. *)
Lemma plain_template_parameter (val : str) :
  forallb is_word val = true -> starts_with [is_digit] val = false ->
  plain_template (DOLLAR :: val) = true.
Proof.
  intros Hw Hd. cbn [plain_template]. rewrite N.eqb_refl.
  rewrite (plain_template_plain val)
    by (apply (@word_not DOLLAR); [simpl; tauto|exact Hw]).
  destruct val as [|d v]; [reflexivity|]. rewrite andb_true_r.
  rewrite starts_with_1 in Hd. simpl in Hw. apply andb_true_iff in Hw.
  destruct Hw as [Hw _]. apply negb_true_iff. unfold is_special.
  rewrite Hd.
  rewrite (@word_not_char DOLLAR d Hw), (@word_not_char AMP d Hw),
    (@word_not_char BACKTICK d Hw), (@word_not_char QUOTE d Hw);
    simpl; tauto.
Qed.

Lemma labelMarker_first (c : char) (t : str) :
  is_not_char COLON c = true -> labelMarker (c :: t) = None.
Proof.
  unfold labelMarker, is_not_char. intros H. apply negb_true_iff in H.
  rewrite starts_with_1. unfold is_char. now rewrite H.
Qed.

(** The marker of a label of word characters right in front of a closing
    parenthesis. *)
Lemma labelMarker_word (label more : str) :
  label <> [] -> forallb is_word label = true ->
  labelMarker (COLON :: label ++ [] ++ RPAREN :: more)
  = Some (length label, 1 + length label + length (@nil char)).
Proof.
  intros Hne Hw. unfold labelMarker. cbn [app].
  change (skipn 1 (COLON :: label ++ RPAREN :: more))
    with (label ++ RPAREN :: more).
  rewrite run_app_stop, (run_all _ _ Hw) by reflexivity.
  replace (1 <=? length label) with true
    by (destruct label; [contradiction|reflexivity]).
  rewrite starts_with_1. change (is_char COLON COLON) with true. cbv iota.
  assert (E : skipn (length label) (label ++ RPAREN :: more) = RPAREN :: more).
  { rewrite skipn_app, skipn_all, Nat.sub_diag. reflexivity. }
  rewrite E. cbn [run]. change (is_space RPAREN) with false. cbv iota.
  rewrite Nat.add_0_r, E, starts_with_1.
  change (is_char RPAREN RPAREN) with true. cbv iota.
  cbn [length]. now rewrite !Nat.add_0_r.
Qed.

Lemma variableReference_first (c : char) (t : str) :
  is_not_char LPAREN c = true -> variableReference (c :: t) = None.
Proof.
  unfold variableReference, is_not_char. intros H. apply negb_true_iff in H.
  rewrite starts_with_1. unfold is_char. now rewrite H.
Qed.

(** A text without opening parenthesis has no variable name to remove. *)
Lemma dropNames_plain (s : str) :
  forallb (is_not_char LPAREN) s = true -> dropNames 0 s = s.
Proof.
  intros H. rewrite <- (app_nil_r s) at 1. rewrite dropNames_quiet.
  - cbn [dropNames]. apply app_nil_r.
  - apply quiet_class with (p := is_not_char LPAREN); [|exact H].
    intros c u. apply variableReference_first.
Qed.

(** Rewrites the tests of the mark [a] and of the class [.] on names of word
    characters. *)
Ltac word_marks a :=
  repeat match goal with
         | H : forallb is_word ?w = true
           |- context [forallb (is_not_char a) ?w] =>
             rewrite (@word_not a w) by (exact H || (simpl; tauto))
         end.

Ltac word_dots :=
  repeat match goal with
         | H : forallb is_word ?w = true |- context [forallb is_dot ?w] =>
             rewrite (@word_forallb is_dot w word_is_dot H)
         end.

(** C1 (amended). For a subquery that renders to the single line
    [MATCH (n:Label) WHERE n.prop = $val] (alias, label and property made of
    word characters, the parameter name not starting with a digit),
    [getCypher] returns [EXISTS (], a line feed, [(:Label { prop: $val })]
    followed by one space, a line feed and [)]: the properties are inline
    and MATCH and WHERE are gone, but so is the indentation, stripped with
    MATCH, and the space that stood in front of WHERE stays. *)
Theorem getCypher_single_equality (n label prop val : str) :
  n <> [] -> forallb is_word n = true ->
  label <> [] -> forallb is_word label = true ->
  forallb is_word prop = true ->
  forallb is_word val = true -> starts_with [is_digit] val = false ->
  getCypher (codes "MATCH (" ++ n ++ [COLON] ++ label ++ codes ") WHERE "
             ++ n ++ [DOT] ++ prop ++ codes " = $" ++ val)
  = codes "EXISTS (" ++ [LF] ++ codes "(:" ++ label ++ codes " { " ++ prop
    ++ codes ": $" ++ val ++ codes " }) " ++ [LF] ++ codes ")".
Proof.
  intros Hn Wn Hl Wl Wp Wv Dv.
  set (e := mkEquality n prop [SPACE] [SPACE] (DOLLAR :: val)).
  set (cond := equalityText e).
  set (pre := LPAREN :: n ++ COLON :: label ++ [RPAREN; SPACE]).
  set (post := codes "WHERE " ++ cond).
  assert (Hsub : codes "MATCH (" ++ n ++ [COLON] ++ label ++ codes ") WHERE "
                 ++ n ++ [DOT] ++ prop ++ codes " = $" ++ val
                 = codes "MATCH " ++ pre ++ post).
  { subst pre post cond e. unfold equalityText. cbn [alias name before_equals after_equals value app].
    repeat (progress (rewrite <- ?app_assoc; cbn -[N_of_ascii])).
    reflexivity. }
  rewrite Hsub. clear Hsub.
  assert (We : well_formed e = true).
  { unfold well_formed, e. cbn [alias name before_equals after_equals value].
    rewrite (@word_forallb is_plain _ word_is_plain Wn).
    rewrite (@word_forallb is_name _ word_is_name Wp).
    cbn [forallb length]. change (is_plain DOLLAR) with true.
    rewrite (@word_forallb is_plain _ word_is_plain Wv). reflexivity. }
  (* the padded line *)
  assert (Hpad : padBlock (codes "MATCH " ++ pre ++ post)
                 = TAB :: codes "MATCH " ++ pre ++ post).
  { apply padBlock_line. subst pre post cond e. unfold equalityText.
    cbn [alias name before_equals after_equals value].
    repeat (rewrite ?forallb_app; cbn [forallb app codes]).
    word_marks LF.
    reflexivity. }
  (* the condition text behind WHERE *)
  assert (Hcond : whereCondition post = Some cond).
  { apply whereCondition_line.
    - subst cond e. unfold equalityText. cbn [alias].
      destruct n as [|c n']; [contradiction|]. cbn [app].
      rewrite starts_with_1. simpl in Wn. now apply andb_true_iff in Wn.
    - subst cond e. unfold equalityText. cbn [alias name before_equals after_equals value].
      repeat (rewrite ?forallb_app; cbn [forallb app codes]).
      word_dots. reflexivity.
    - subst cond e. unfold equalityText. cbn [alias name before_equals after_equals value].
      rewrite !app_assoc. apply dropClose_app; [discriminate|].
      cbn [forallb]. word_marks RPAREN. reflexivity. }
  (* no WHERE keyword in the pattern *)
  assert (Hquiet : quiet whereCondition pre post).
  { subst pre. apply quiet_cons; [reflexivity|].
    apply quiet_app; [now apply quiet_where_word; auto|].
    apply quiet_cons; [reflexivity|].
    apply quiet_app; [now apply quiet_where_word; auto|].
    apply quiet_cons; [reflexivity|].
    apply quiet_cons; [reflexivity|]. apply quiet_nil. }
  (* the properties *)
  assert (Hprops : propertiesOf (parseConditions cond)
                   = prop ++ codes ": $" ++ val).
  { unfold propertiesOf, parseConditions.
    rewrite <- (app_nil_r cond). change (cond ++ []) with (conjunction e []).
    rewrite split_conjunction by (exact We || reflexivity).
    cbn [map]. rewrite parseCondition_well_formed by exact We.
    cbn [map join]. apply propertyEntry_single. }
  (* the injection behind the label *)
  assert (Hinject : injectProperties (prop ++ codes ": $" ++ val) pre
                    = LPAREN :: n ++ COLON :: label ++ codes " { " ++ prop
                      ++ codes ": $" ++ val ++ codes " }) ").
  { subst pre.
    change (LPAREN :: n ++ COLON :: label ++ [RPAREN; SPACE])
      with ((LPAREN :: n) ++ COLON :: label ++ [] ++ RPAREN :: [SPACE]).
    rewrite injectProperties_marker.
    - rewrite expand_plain_template.
      + cbn [app]. rewrite <- !app_assoc. reflexivity.
      + rewrite plain_template_app
          by (apply (@word_not DOLLAR); [simpl; tauto|exact Wp]).
        change (codes ": $" ++ val) with (COLON :: SPACE :: DOLLAR :: val).
        cbn [plain_template]. change (N.eqb COLON DOLLAR) with false.
        change (N.eqb SPACE DOLLAR) with false. cbv iota. cbn [andb].
        now apply plain_template_parameter.
    - apply quiet_class with (p := is_not_char COLON).
      + intros c u. apply labelMarker_first.
      + cbn [forallb]. word_marks COLON. reflexivity.
    - now apply labelMarker_word. }
  (* the variable name *)
  assert (Hnames : removeVariableNames
                     (LPAREN :: n ++ COLON :: label ++ codes " { " ++ prop
                      ++ codes ": $" ++ val ++ codes " }) ")
                   = codes "(:" ++ label ++ codes " { " ++ prop
                     ++ codes ": $" ++ val ++ codes " }) ").
  { rewrite removeVariableNames_dropNames.
    rewrite (@dropNames_here _ _ (@variableReference_name n _ Hn Wn)).
    change (skipn (1 + length n + 1) (LPAREN :: n ++ COLON :: ?t))
      with (skipn (length n + 1) (n ++ COLON :: t)).
    rewrite skipn_app, skipn_all2 by lia.
    replace (length n + 1 - length n) with 1 by lia. cbn [app skipn].
    rewrite dropNames_plain; [reflexivity|].
    repeat (rewrite ?forallb_app; cbn [forallb app codes]).
    word_marks LPAREN.
    reflexivity. }
  unfold getCypher. rewrite Hpad.
  rewrite (@transformCypherQuery_at _ pre post cond).
  - rewrite Hprops, Hinject, Hnames. rewrite <- !app_assoc. reflexivity.
  - change (codes "MATCH " ++ pre ++ post)
      with (codes "MATCH " ++ LPAREN :: (n ++ COLON :: label ++ [RPAREN; SPACE]) ++ post).
    apply stripMatch_indented.
  - exact Hquiet.
  - exact Hcond.
  - subst cond e. unfold equalityText. cbn [alias].
    destruct n; [contradiction|discriminate].
Qed.

Lemma getCypher_single_equality_witness :
  getCypher (codes "MATCH (n:Label) WHERE n.prop = $val")
  = codes "EXISTS (" ++ [LF] ++ codes "(:Label { prop: $val }) " ++ [LF]
    ++ codes ")".
Proof.
  apply (@getCypher_single_equality (codes "n") (codes "Label") (codes "prop")
           (codes "val")); (discriminate || reflexivity).
Defined.

(** C1 as stated fails: the text between the parentheses of EXISTS has no
    tab in front and a space behind. *)
Lemma getCypher_single_equality_not_indented :
  getCypher (codes "MATCH (n:Label) WHERE n.prop = $val")
  <> codes "EXISTS (" ++ [LF; TAB] ++ codes "(:Label { prop: $val })" ++ [LF]
     ++ codes ")".
Proof. vm_compute. discriminate. Qed.

(** * Further properties of the rewrite *)

(** ** Keywords and white space *)

Lemma spells_parts (k w : str) :
  spells k w = true ->
  starts_with (map is_char_i k) w = true /\ length w = length k.
Proof.
  unfold spells. intros H. apply andb_true_iff in H. destruct H as [H L].
  apply Nat.eqb_eq in L. now split.
Qed.

Lemma is_white_parts (ws : str) :
  is_white ws = true -> forallb is_space ws = true /\ ws <> [].
Proof.
  unfold is_white. intros H. apply andb_true_iff in H. destruct H as [H L].
  split; [exact H|]. destruct ws; [discriminate|discriminate].
Qed.

Lemma is_white_starts (ws t : str) :
  is_white ws = true -> starts_with [is_space] (ws ++ t) = true.
Proof.
  intros H. destruct (@is_white_parts _ H) as [Hs Hne].
  destruct ws as [|c ws]; [contradiction|]. cbn [app].
  rewrite starts_with_1. simpl in Hs. now apply andb_true_iff in Hs.
Qed.

Lemma run_white (ws t : str) :
  forallb is_space ws = true -> starts_with [is_space] t = false ->
  run is_space (ws ++ t) = length ws.
Proof.
  intros H Ht. rewrite (@run_app_all _ _ _ H), (@run_not_starting _ _ Ht). lia.
Qed.

Lemma skipn_length_app (A : Type) (a b : list A) (n : nat) :
  n = length a -> skipn n (a ++ b) = b.
Proof.
  intros ->. rewrite skipn_app, skipn_all, Nat.sub_diag. reflexivity.
Qed.

Lemma spells_first (k0 : char) (k w t : str) :
  spells (k0 :: k) w = true -> is_space k0 = false ->
  is_space (k0 + 32)%N = false ->
  starts_with [is_space] (w ++ t) = false.
Proof.
  intros H H0 H1. apply spells_parts in H. destruct H as [H _].
  destruct w as [|c w]; [discriminate|]. cbn [app]. rewrite starts_with_1.
  cbn [map starts_with] in H. apply andb_true_iff in H. destruct H as [H _].
  unfold is_char_i in H. apply orb_true_iff in H.
  destruct H as [H|H]; apply N.eqb_eq in H; now subst c.
Qed.

(** ** Line 60: what is stripped with MATCH *)

Lemma matchPrefix_keyword (ws kw ws' r : str) :
  forallb is_space ws = true -> spells (codes "MATCH") kw = true ->
  is_white ws' = true -> starts_with [is_space] r = false ->
  matchPrefix (ws ++ kw ++ ws' ++ r)
  = Some (length ws + (5 + length ws')).
Proof.
  intros Hws Hkw Hws' Hr. unfold matchPrefix.
  destruct (@spells_parts _ _ Hkw) as [Hk Lk]. change (length (codes "MATCH")) with 5 in Lk.
  destruct (@is_white_parts _ Hws') as [Hs' _].
  rewrite run_white; [|exact Hws|].
  2:{ apply (@spells_first _ _ _ _ Hkw); reflexivity. }
  rewrite skipn_length_app by reflexivity.
  rewrite (@starts_with_prefix _ _ (ws' ++ r) Hk). cbn [andb].
  replace (skipn (length ws + 5) (ws ++ kw ++ ws' ++ r)) with (ws' ++ r).
  2:{ rewrite !app_assoc. rewrite <- (app_assoc _ ws' r).
      symmetry. apply skipn_length_app. rewrite length_app. lia. }
  rewrite (@is_white_starts ws' r Hws'), (@run_white ws' r Hs' Hr). reflexivity.
Qed.

(** X1. Line 60 strips the white space in front of MATCH, the keyword in any
    letter case and all the white space behind it: what is left starts at
    the first character that is not white space. *)
Theorem stripMatch_keyword (ws kw ws' r : str) :
  forallb is_space ws = true -> spells (codes "MATCH") kw = true ->
  is_white ws' = true -> starts_with [is_space] r = false ->
  stripMatch (ws ++ kw ++ ws' ++ r) = r.
Proof.
  intros Hws Hkw Hws' Hr. rewrite stripMatch_prefix.
  rewrite (@matchPrefix_keyword ws kw ws' r Hws Hkw Hws' Hr).
  destruct (@spells_parts _ _ Hkw) as [_ Lk].
  change (length (codes "MATCH")) with 5 in Lk.
  rewrite (app_assoc ws), (app_assoc (ws ++ kw)).
  apply skipn_length_app. rewrite !length_app. lia.
Qed.

Lemma stripMatch_keyword_witness :
  stripMatch ([LF; TAB] ++ codes "Match" ++ [SPACE; LF; SPACE]
              ++ codes "(n:Person) WHERE n.a = 1")
  = codes "(n:Person) WHERE n.a = 1".
Proof.
  apply (@stripMatch_keyword [LF; TAB] (codes "Match") [SPACE; LF; SPACE]
           (codes "(n:Person) WHERE n.a = 1")); reflexivity.
Defined.

(** X2. A fragment that does not start, behind its leading white space, with
    MATCH and white space is left as it is by line 60: a MATCH further on in
    the text (as in OPTIONAL MATCH) or one with no white space behind it is
    not stripped, and the leading white space stays. *)
Theorem stripMatch_only_in_front (ws r : str) :
  forallb is_space ws = true -> starts_with [is_space] r = false ->
  starts_with (map is_char_i (codes "MATCH") ++ [is_space]) r = false ->
  stripMatch (ws ++ r) = ws ++ r.
Proof.
  intros Hws Hr Hk. rewrite stripMatch_prefix. unfold matchPrefix.
  rewrite (@run_white ws r Hws Hr).
  rewrite skipn_length_app by reflexivity.
  replace (skipn (length ws + 5) (ws ++ r)) with (skipn 5 r).
  2:{ rewrite skipn_app, (@skipn_all2 _ (length ws + 5) ws) by lia.
      replace (length ws + 5 - length ws) with 5 by lia. reflexivity. }
  rewrite starts_with_app in Hk. change (length (map is_char_i (codes "MATCH"))) with 5 in Hk.
  now rewrite Hk.
Qed.

Lemma stripMatch_only_in_front_witness :
  stripMatch (TAB :: codes "OPTIONAL MATCH (n:Person) WHERE n.a = 1")
  = TAB :: codes "OPTIONAL MATCH (n:Person) WHERE n.a = 1".
Proof.
  apply (@stripMatch_only_in_front [TAB]
           (codes "OPTIONAL MATCH (n:Person) WHERE n.a = 1")); reflexivity.
Defined.

(** ** Lines 63-64 and 89: the WHERE clause that is found *)

Lemma starts_with_app_long (ps : list (char -> bool)) (a b : str) :
  length ps <= length a -> starts_with ps (a ++ b) = starts_with ps a.
Proof.
  revert a; induction ps as [|p ps IH]; intros a H; [reflexivity|].
  destruct a as [|x a]; [simpl in H; lia|]. cbn [app starts_with].
  rewrite IH; [reflexivity|]. simpl in H. lia.
Qed.

Lemma occurs_starts_with (ps : list (char -> bool)) (s : str) :
  occurs ps s = false -> starts_with ps s = false.
Proof.
  destruct s; cbn [occurs]; intros H; apply orb_false_iff in H; apply H.
Qed.

(** No WHERE clause starts in a text in which, read together with the five
    letters behind it, the keyword and its white space do not occur. *)
Lemma quiet_where_before (pre kw t : str) :
  occurs where_keyword (pre ++ kw) = false -> length kw = 5 ->
  quiet whereCondition pre (kw ++ t).
Proof.
  intros H L k Hk. apply whereCondition_first.
  rewrite app_assoc, <- (@skipn_app_l _ k pre kw) by lia.
  rewrite starts_with_app_long.
  - apply occurs_starts_with. now apply occurs_skipn.
  - rewrite length_skipn, length_app, L. cbn. lia.
Qed.

Lemma whereCondition_keyword (kw ws c : str) :
  spells (codes "WHERE") kw = true -> is_white ws = true ->
  starts_with [is_space] c = false ->
  whereCondition (kw ++ ws ++ c)
  = if forallb is_dot c then Some (conditionText c) else None.
Proof.
  intros Hkw Hws Hc. unfold whereCondition, where_keyword.
  destruct (@spells_parts _ _ Hkw) as [Hk Lk].
  change (length (codes "WHERE")) with 5 in Lk.
  destruct (@is_white_parts _ Hws) as [Hs _].
  rewrite starts_with_app, (@starts_with_prefix _ _ (ws ++ c) Hk).
  change (length (map is_char_i (codes "WHERE"))) with 5.
  rewrite (@skipn_length_app _ kw (ws ++ c) 5) by (symmetry; exact Lk).
  rewrite (@is_white_starts ws c Hws). cbn [andb].
  rewrite (@run_white ws c Hs Hc).
  rewrite app_assoc, skipn_length_app by (rewrite length_app; lia).
  reflexivity.
Qed.

(** X3. The WHERE pattern matches at the first keyword WHERE (in any letter
    case) that white space follows, when no line terminator stands between
    the white space and the end of the text.  The capture is the text behind
    the white space without one opening parenthesis in front and one closing
    parenthesis at the end, and line 89 leaves the text in front of the
    keyword: everything from the keyword on is removed, the white space in
    front of it is kept. *)
Theorem where_clause_found (pre kw ws c : str) :
  occurs where_keyword (pre ++ kw) = false ->
  spells (codes "WHERE") kw = true -> is_white ws = true ->
  starts_with [is_space] c = false -> forallb is_dot c = true ->
  (exists whereMatch,
      exec whereRegEx (pre ++ kw ++ ws ++ c) = Some (length pre, whereMatch)
      /\ get_capture 1 (captures whereMatch) = Some (conditionText c))
  /\ replace whereRegEx [] (pre ++ kw ++ ws ++ c) = pre.
Proof.
  intros Hpre Hkw Hws Hc Hd.
  destruct (@spells_parts _ _ Hkw) as [_ Lk].
  change (length (codes "WHERE")) with 5 in Lk.
  pose proof (@quiet_where_before pre kw (ws ++ c) Hpre Lk) as Hq.
  pose proof (@whereCondition_keyword kw ws c Hkw Hws Hc) as Hw.
  rewrite Hd in Hw. split.
  - eexists. split; [apply (exec_where_at Hq Hw)|reflexivity].
  - apply (replace_where_at Hq Hw).
Qed.

Lemma where_clause_found_witness :
  (exists whereMatch,
      exec whereRegEx (codes "(n:Person)  " ++ codes "where" ++ [SPACE; TAB]
                       ++ codes "(n.a = 1 AND n.b = 2)")
      = Some (12, whereMatch)
      /\ get_capture 1 (captures whereMatch)
         = Some (codes "n.a = 1 AND n.b = 2"))
  /\ replace whereRegEx [] (codes "(n:Person)  " ++ codes "where"
                            ++ [SPACE; TAB] ++ codes "(n.a = 1 AND n.b = 2)")
     = codes "(n:Person)  ".
Proof.
  apply (@where_clause_found (codes "(n:Person)  ") (codes "where")
           [SPACE; TAB] (codes "(n.a = 1 AND n.b = 2)")); reflexivity.
Defined.

Lemma dropClose_ends (c : str) :
  ends_with RPAREN c = false -> dropClose c = c.
Proof.
  induction c as [|x c IH]; [reflexivity|]. destruct c as [|y c].
  - cbn. now intros ->.
  - intros H. change (dropClose (x :: y :: c)) with (x :: dropClose (y :: c)).
    now rewrite IH.
Qed.

Lemma dropClose_closed (c : str) : dropClose (c ++ [RPAREN]) = c.
Proof.
  induction c as [|x c IH]; [reflexivity|]. cbn [app].
  destruct (c ++ [RPAREN]) as [|y l] eqn:E.
  - destruct c; discriminate.
  - change (dropClose (x :: y :: l)) with (x :: dropClose (y :: l)).
    now rewrite IH.
Qed.

(** X4. One opening parenthesis in front of the condition and one closing
    parenthesis at its end are left out of the capture, each on its own:
    [WHERE c], [WHERE (c)], [WHERE (c] and [WHERE c)] all capture [c]. *)
Theorem where_parentheses_dropped (pre kw ws c : str) :
  occurs where_keyword (pre ++ kw) = false ->
  spells (codes "WHERE") kw = true -> is_white ws = true ->
  c <> [] -> starts_with [is_space] c = false ->
  starts_with [is_char LPAREN] c = false -> ends_with RPAREN c = false ->
  forallb is_dot c = true ->
  Forall
    (fun tail =>
       exists whereMatch,
         exec whereRegEx (pre ++ kw ++ ws ++ tail)
         = Some (length pre, whereMatch)
         /\ get_capture 1 (captures whereMatch) = Some c)
    [c; LPAREN :: c ++ [RPAREN]; LPAREN :: c; c ++ [RPAREN]].
Proof.
  intros Hpre Hkw Hws Hne Hc Ho Hcl Hd.
  destruct (@spells_parts _ _ Hkw) as [_ Lk].
  change (length (codes "WHERE")) with 5 in Lk.
  assert (F : forall tail,
             starts_with [is_space] tail = false ->
             forallb is_dot tail = true -> conditionText tail = c ->
             exists whereMatch,
               exec whereRegEx (pre ++ kw ++ ws ++ tail)
               = Some (length pre, whereMatch)
               /\ get_capture 1 (captures whereMatch) = Some c).
  { intros tail Ht Hdt E.
    pose proof (@quiet_where_before pre kw (ws ++ tail) Hpre Lk) as Hq.
    pose proof (@whereCondition_keyword kw ws tail Hkw Hws Ht) as Hw.
    rewrite Hdt, E in Hw.
    eexists. split; [apply (exec_where_at Hq Hw)|reflexivity]. }
  assert (Eo : dropOpen c = c).
  { destruct c as [|x c]; [reflexivity|]. unfold dropOpen.
    rewrite starts_with_1 in Ho. unfold is_char in Ho. now rewrite Ho. }
  assert (Eo' : dropOpen (c ++ [RPAREN]) = c ++ [RPAREN]).
  { destruct c as [|x c]; [contradiction|]. cbn [app]. unfold dropOpen.
    rewrite starts_with_1 in Ho. unfold is_char in Ho. now rewrite Ho. }
  assert (Hs' : starts_with [is_space] (c ++ [RPAREN]) = false).
  { destruct c as [|x c]; [contradiction|]. exact Hc. }
  assert (Hd' : forallb is_dot (c ++ [RPAREN]) = true).
  { rewrite forallb_app, Hd. reflexivity. }
  constructor; [|constructor; [|constructor; [|constructor; [|constructor]]]].
  - apply F; auto. unfold conditionText. rewrite Eo. now apply dropClose_ends.
  - apply F; [reflexivity|exact Hd'|]. unfold conditionText, dropOpen.
    change (N.eqb LPAREN LPAREN) with true. cbv iota. apply dropClose_closed.
  - apply F; [reflexivity|exact Hd|]. unfold conditionText, dropOpen.
    change (N.eqb LPAREN LPAREN) with true. cbv iota.
    now apply dropClose_ends.
  - apply F; [exact Hs'|exact Hd'|]. unfold conditionText. rewrite Eo'.
    apply dropClose_closed.
Qed.

Lemma where_parentheses_dropped_witness :
  Forall
    (fun tail =>
       exists whereMatch,
         exec whereRegEx (codes "(n:Person) " ++ codes "WHERE" ++ [SPACE]
                          ++ tail)
         = Some (11, whereMatch)
         /\ get_capture 1 (captures whereMatch) = Some (codes "n.a = 1"))
    [codes "n.a = 1"; codes "(n.a = 1)"; codes "(n.a = 1"; codes "n.a = 1)"].
Proof.
  apply (@where_parentheses_dropped (codes "(n:Person) ") (codes "WHERE")
           [SPACE] (codes "n.a = 1")); (discriminate || reflexivity).
Defined.

(** ** Fragments of the shape MATCH pattern WHERE condition *)

Lemma match_where_parts (q : MatchWhere) :
  match_where q = true ->
  forallb is_space (indentation q) = true
  /\ spells (codes "MATCH") (matchWord q) = true
  /\ is_white (matchSpace q) = true
  /\ starts_with [is_space] (patternPart q) = false
  /\ occurs where_keyword (patternPart q ++ whereWord q) = false
  /\ spells (codes "WHERE") (whereWord q) = true
  /\ is_white (whereSpace q) = true
  /\ starts_with [is_space] (conditionPart q) = false.
Proof.
  unfold match_where. intros H.
  repeat (apply andb_true_iff in H; destruct H as [H ?]).
  repeat match goal with
         | H : negb _ = true |- _ => apply negb_true_iff in H
         end.
  repeat split; assumption.
Qed.

(** What line 60 leaves of the fragment: the pattern and the WHERE clause. *)
Lemma stripMatch_fragment (q : MatchWhere) :
  match_where q = true ->
  stripMatch (fragmentText q)
  = patternPart q ++ whereWord q ++ whereSpace q ++ conditionPart q.
Proof.
  intros H.
  destruct (match_where_parts _ H) as (Hi & Hm & Hs & Hp & _ & Hw & _ & _).
  assert (Hr : starts_with [is_space]
                 (patternPart q ++ whereWord q ++ whereSpace q
                  ++ conditionPart q) = false).
  { destruct (patternPart q) as [|c p]; [|exact Hp]. cbn [app].
    apply (@spells_first _ _ _ _ Hw); reflexivity. }
  unfold fragmentText. rewrite stripMatch_prefix.
  rewrite (@matchPrefix_keyword _ _ _ _ Hi Hm Hs Hr).
  destruct (@spells_parts _ _ Hm) as [_ Lk].
  change (length (codes "MATCH")) with 5 in Lk.
  rewrite (app_assoc (indentation q)),
    (app_assoc (indentation q ++ matchWord q)).
  apply skipn_length_app. rewrite !length_app. lia.
Qed.

Lemma where_fragment (q : MatchWhere) :
  match_where q = true ->
  quiet whereCondition (patternPart q)
        (whereWord q ++ whereSpace q ++ conditionPart q)
  /\ whereCondition (whereWord q ++ whereSpace q ++ conditionPart q)
     = if forallb is_dot (conditionPart q)
       then Some (conditionText (conditionPart q)) else None.
Proof.
  intros H.
  destruct (match_where_parts _ H) as (_ & _ & _ & _ & Ho & Hw & Hs & Hc).
  destruct (@spells_parts _ _ Hw) as [_ Lk].
  change (length (codes "WHERE")) with 5 in Lk. split.
  - now apply quiet_where_before.
  - now apply whereCondition_keyword.
Qed.

(** X5. How the steps compose on a fragment [MATCH pattern WHERE condition],
    each keyword followed by white space, that is cut at its first WHERE
    followed by white space (the letters WHERE with white space behind them
    stand nowhere in the pattern, not even inside a name or a quoted text)
    and whose condition part has no line terminator.  The condition text is
    the condition part without one opening parenthesis at its start and one
    closing parenthesis at its end, if it has them.  When the condition text
    is not empty, the rewrite succeeds, and its result is the pattern alone
    (leading white space and MATCH stripped, the WHERE clause removed) with
    the properties of the parsed condition text injected and the variable
    names then removed.  The keywords may be spelled in any letter case. *)
Theorem transformCypherQuery_composed (q : MatchWhere) :
  match_where q = true -> forallb is_dot (conditionPart q) = true ->
  conditionText (conditionPart q) <> [] ->
  transformCypherQuery (fragmentText q)
  = inl (removeVariableNames
           (injectProperties
              (propertiesOf (parseConditions (conditionText (conditionPart q))))
              (patternPart q))).
Proof.
  intros H Hd Hne. destruct (where_fragment _ H) as [Hq Hw]. rewrite Hd in Hw.
  apply (@transformCypherQuery_at _ _ _ _ (stripMatch_fragment _ H) Hq Hw Hne).
Qed.

Lemma transformCypherQuery_composed_witness :
  transformCypherQuery
    ([TAB] ++ codes "match" ++ [SPACE] ++ codes "(a:A)-[r:R]->(b:B) "
     ++ codes "where" ++ [SPACE] ++ codes "(a.x = 1 and b.y = $p)")
  = inl (removeVariableNames
           (injectProperties
              (propertiesOf (parseConditions (codes "a.x = 1 and b.y = $p")))
              (codes "(a:A)-[r:R]->(b:B) "))).
Proof.
  apply (@transformCypherQuery_composed
           (mkMatchWhere [TAB] (codes "match") [SPACE]
              (codes "(a:A)-[r:R]->(b:B) ") (codes "where") [SPACE]
              (codes "(a.x = 1 and b.y = $p)")));
    (discriminate || reflexivity).
Defined.

Lemma variableReference_without_colon (s : str) :
  forallb (is_not_char COLON) s = true -> variableReference s = None.
Proof.
  intros H. unfold variableReference.
  replace (starts_with [is_char COLON] (skipn (1 + run is_word (skipn 1 s)) s))
    with false; [now rewrite andb_false_r|].
  symmetry. apply (forallb_skipn _ _ (1 + run is_word (skipn 1 s))) in H.
  destruct (skipn (1 + run is_word (skipn 1 s)) s) as [|c t]; [reflexivity|].
  rewrite starts_with_1. simpl in H. apply andb_true_iff in H.
  destruct H as [H _]. unfold is_not_char in H. unfold is_char.
  now apply negb_true_iff in H.
Qed.

Lemma dropNames_fixed (s : str) :
  (forall k, variableReference (skipn k s) = None) -> dropNames 0 s = s.
Proof.
  intros H. rewrite <- (app_nil_r s) at 1. rewrite dropNames_quiet.
  - cbn [dropNames]. apply app_nil_r.
  - intros k _. rewrite app_nil_r. apply H.
Qed.

(** X6. On a fragment [MATCH pattern WHERE condition], each keyword followed
    by white space, that is cut at its first WHERE followed by white space
    (the letters WHERE with white space behind them stand nowhere in the
    pattern, not even inside a name or a quoted text) and whose condition
    part has no line terminator and is not empty without its outer
    parentheses: when the pattern has no label marker (a colon and word
    characters or a backtick-quoted identifier) that a closing parenthesis
    follows directly or after white space, the rewrite succeeds all the same
    and returns the pattern without the variable names of its node
    references, so the conditions of the WHERE clause are lost.  A pattern
    without any colon, as [(n)], is returned as it is. *)
Theorem conditions_lost_without_label (q : MatchWhere) :
  match_where q = true -> forallb is_dot (conditionPart q) = true ->
  conditionText (conditionPart q) <> [] ->
  ((forall k, labelMarker (skipn k (patternPart q)) = None) ->
   transformCypherQuery (fragmentText q)
   = inl (removeVariableNames (patternPart q)))
  /\ (forallb (is_not_char COLON) (patternPart q) = true ->
      transformCypherQuery (fragmentText q) = inl (patternPart q)).
Proof.
  intros H Hd Hne. destruct (where_fragment _ H) as [Hq Hw]. rewrite Hd in Hw.
  rewrite (@transformCypherQuery_at _ _ _ _ (stripMatch_fragment _ H) Hq Hw Hne).
  split.
  - intros Hm. rewrite injectProperties_no_marker; [reflexivity|].
    intros k _. apply Hm.
  - intros Hc. rewrite injectProperties_no_marker.
    + rewrite removeVariableNames_dropNames, dropNames_fixed; [reflexivity|].
      intros k. apply variableReference_without_colon.
      now apply forallb_skipn.
    + intros k _. apply (forallb_skipn _ _ k) in Hc.
      destruct (skipn k (patternPart q)) as [|c t]; [reflexivity|].
      apply labelMarker_first. simpl in Hc. apply andb_true_iff in Hc.
      apply Hc.
Qed.

Lemma conditions_lost_without_label_witness :
  transformCypherQuery
    ([TAB] ++ codes "MATCH" ++ [SPACE] ++ codes "(n)-[r]->(m) "
     ++ codes "WHERE" ++ [SPACE] ++ codes "n.a = 1 AND m.b = 2")
  = inl (codes "(n)-[r]->(m) ").
Proof.
  apply (@conditions_lost_without_label
           (mkMatchWhere [TAB] (codes "MATCH") [SPACE]
              (codes "(n)-[r]->(m) ") (codes "WHERE") [SPACE]
              (codes "n.a = 1 AND m.b = 2")));
    (discriminate || reflexivity).
Defined.

(** ** Lines 63-68: WHERE clauses that make the rewrite throw *)

Lemma transformCypherQuery_no_clause (cypherFragment : str) :
  whereClause (stripMatch cypherFragment) = false ->
  transformCypherQuery cypherFragment = noWhereClause.
Proof.
  intros H.
  pose proof (throws_from_whereClause (stripMatch cypherFragment) 0) as T.
  rewrite H in T. unfold throws_from in T.
  fold (exec whereRegEx (stripMatch cypherFragment)) in T.
  unfold transformCypherQuery, noWhereClause.
  destruct (exec whereRegEx (stripMatch cypherFragment)) as [[i y]|];
    [|reflexivity].
  destruct (get_capture 1 (captures y)) as [[|x l]|];
    (reflexivity || discriminate T).
Qed.

(** X7. A fragment [MATCH pattern WHERE condition], each keyword followed by
    white space, that is cut at its first WHERE followed by white space (the
    letters WHERE with white space behind them stand nowhere in the pattern,
    not even inside a name or a quoted text) and whose
    condition part is empty or only a parenthesis or an empty pair of
    parentheses makes the rewrite throw, and [getCypher] return the
    fallback: the WHERE pattern matches at that first keyword with an empty
    capture and the search does not go on. *)
Theorem empty_condition_throws (q : MatchWhere) :
  match_where q = true ->
  In (conditionPart q) [[]; [LPAREN]; [RPAREN]; [LPAREN; RPAREN]] ->
  transformCypherQuery (fragmentText q) = noWhereClause
  /\ (forall subQueryStr,
         padBlock subQueryStr = fragmentText q ->
         getCypher subQueryStr = fallback (fragmentText q)).
Proof.
  intros H Hc. destruct (where_fragment _ H) as [Hq Hw].
  assert (E : forallb is_dot (conditionPart q) = true
              /\ conditionText (conditionPart q) = []).
  { cbn [In] in Hc.
    destruct Hc as [<-|[<-|[<-|[<-|[]]]]]; split; reflexivity. }
  destruct E as [Hd E]. rewrite Hd, E in Hw.
  assert (T : transformCypherQuery (fragmentText q) = noWhereClause).
  { unfold transformCypherQuery. rewrite (stripMatch_fragment _ H).
    rewrite (exec_where_at Hq Hw). reflexivity. }
  split; [exact T|]. intros s Hs. unfold getCypher. rewrite Hs, T.
  reflexivity.
Qed.

Lemma empty_condition_throws_witness :
  transformCypherQuery
    ([TAB] ++ codes "MATCH" ++ [SPACE] ++ codes "(n:Person) "
     ++ codes "Where" ++ [SPACE; SPACE] ++ [LPAREN])
  = noWhereClause.
Proof.
  apply (@empty_condition_throws
           (mkMatchWhere [TAB] (codes "MATCH") [SPACE] (codes "(n:Person) ")
              (codes "Where") [SPACE; SPACE] [LPAREN]));
    [reflexivity|simpl; tauto].
Defined.

Lemma space_not_where (ws t : str) :
  forallb is_space ws = true -> occurs where_keyword t = false ->
  forall j, starts_with where_keyword (skipn j (ws ++ t)) = false.
Proof.
  intros Hws Ht. induction ws as [|x ws IH]; intros j.
  - cbn [app]. apply occurs_starts_with. now apply occurs_skipn.
  - simpl in Hws. apply andb_true_iff in Hws. destruct Hws as [Hx Hws].
    destruct j as [|j]; [|apply (IH Hws)].
    cbn [skipn app]. apply where_keyword_first. char_facts.
Qed.

(** Behind the first letter of the keyword, no keyword WHERE starts in the
    keyword or in its white space. *)
Lemma keyword_not_where (kw ws t : str) :
  spells (codes "WHERE") kw = true -> forallb is_space ws = true ->
  occurs where_keyword t = false ->
  forall j, 1 <= j -> starts_with where_keyword (skipn j (kw ++ ws ++ t)) = false.
Proof.
  intros Hkw Hws Ht j Hj. destruct (@spells_parts _ _ Hkw) as [Hk Lk].
  destruct kw as [|c0 [|c1 [|c2 [|c3 [|c4 [|c5 kw]]]]]]; try discriminate Lk.
  cbn in Hk. repeat (apply andb_true_iff in Hk; destruct Hk as [? Hk]).
  destruct j as [|[|[|[|[|j]]]]]; [lia| | | | |];
    try (cbn [skipn app]; apply where_keyword_first; char_facts).
  change (skipn (S (S (S (S (S j))))) ([c0; c1; c2; c3; c4] ++ ws ++ t))
    with (skipn j (ws ++ t)).
  now apply space_not_where.
Qed.

(** X8. A fragment [MATCH pattern WHERE condition] with a line terminator in
    its condition part, and no further keyword WHERE behind the first, makes
    the rewrite throw although the WHERE clause is there: the clause has to
    end the text on the line of its keyword.  [getCypher] then returns the
    fallback. *)
Theorem where_clause_not_last_throws (q : MatchWhere) :
  match_where q = true -> forallb is_dot (conditionPart q) = false ->
  occurs where_keyword (conditionPart q) = false ->
  exec whereRegEx (stripMatch (fragmentText q)) = None
  /\ transformCypherQuery (fragmentText q) = noWhereClause
  /\ (forall subQueryStr,
         padBlock subQueryStr = fragmentText q ->
         getCypher subQueryStr = fallback (fragmentText q)).
Proof.
  intros H Hd Ho. destruct (where_fragment _ H) as [Hq Hw].
  rewrite Hd in Hw.
  destruct (match_where_parts _ H) as (_ & _ & _ & _ & _ & Hk & Hs & _).
  destruct (@is_white_parts _ Hs) as [Hs' _].
  assert (E : exec whereRegEx (stripMatch (fragmentText q)) = None).
  { rewrite (stripMatch_fragment _ H). unfold exec.
    apply (@exec_from_nowhere _ _ _ _ match_at_whereRegEx).
    intros k _.
    destruct (Nat.lt_ge_cases k (length (patternPart q))) as [L|L].
    - rewrite skipn_app_l by lia. now apply Hq.
    - rewrite skipn_app, skipn_all2 by lia. cbn [app].
      destruct (k - length (patternPart q)) as [|j] eqn:Ej; [exact Hw|].
      apply whereCondition_first.
      apply keyword_not_where; auto. lia. }
  assert (T : transformCypherQuery (fragmentText q) = noWhereClause).
  { unfold transformCypherQuery. now rewrite E. }
  split; [exact E|]. split; [exact T|].
  intros s Hs0. unfold getCypher. rewrite Hs0, T. reflexivity.
Qed.

Lemma where_clause_not_last_throws_witness :
  transformCypherQuery
    ([TAB] ++ codes "MATCH" ++ [SPACE] ++ codes "(n:Person) "
     ++ codes "WHERE" ++ [SPACE] ++ codes "n.a = 1" ++ [LF; TAB]
     ++ codes "RETURN n")
  = noWhereClause.
Proof.
  apply (@where_clause_not_last_throws
           (mkMatchWhere [TAB] (codes "MATCH") [SPACE] (codes "(n:Person) ")
              (codes "WHERE") [SPACE]
              (codes "n.a = 1" ++ [LF; TAB] ++ codes "RETURN n")));
    reflexivity.
Defined.

Lemma whereClause_none (t : str) :
  (forall k, whereCondition (skipn k t) = None
             \/ whereCondition (skipn k t) = Some []) ->
  whereClause t = false.
Proof.
  induction t as [|c t IH]; intros H.
  - reflexivity.
  - cbn [whereClause]. rewrite IH.
    + destruct (H 0) as [E|E]; cbn [skipn] in E; now rewrite E.
    + intros k. apply (H (S k)).
Qed.

Lemma run_stops (p : char -> bool) (s : str) :
  starts_with [p] (skipn (run p s) s) = false.
Proof.
  induction s as [|c t IH]; [reflexivity|]. cbn [run].
  destruct (p c) eqn:E; [exact IH|]. cbn [skipn]. rewrite starts_with_1.
  exact E.
Qed.

Lemma spaces_not_starting (r : str) :
  forallb is_space r = true -> starts_with [is_space] r = false -> r = [].
Proof.
  destruct r as [|c t]; [reflexivity|]. rewrite starts_with_1. simpl.
  intros H E. rewrite E in H. discriminate H.
Qed.

Lemma line_terminator_is_space (c : char) :
  is_line_terminator c = true -> is_space c = true.
Proof. intros H. char_facts. Qed.

(** Behind a line terminator followed by white space only, every WHERE
    keyword has either a line terminator behind it or nothing but white
    space. *)
Lemma whereCondition_before_line_end (a ws : str) (lt : char) (k : nat) :
  is_line_terminator lt = true -> forallb is_space ws = true ->
  whereCondition (skipn k (a ++ lt :: ws)) = None
  \/ whereCondition (skipn k (a ++ lt :: ws)) = Some [].
Proof.
  intros Hl Hws. unfold whereCondition.
  set (t := skipn k (a ++ lt :: ws)).
  destruct (starts_with where_keyword t); [|now left].
  set (m := run is_space (skipn 5 t)).
  assert (Hr : starts_with [is_space] (skipn (5 + m) t) = false).
  { rewrite Nat.add_comm, <- skipn_skipn. apply run_stops. }
  assert (Et : skipn (5 + m) t = skipn (5 + m + k) (a ++ lt :: ws)).
  { unfold t. now rewrite skipn_skipn. }
  rewrite Et in *.
  destruct (Nat.le_gt_cases (5 + m + k) (length a)) as [L|L].
  - rewrite skipn_app_l by exact L. rewrite forallb_app. cbn [forallb].
    unfold is_dot at 2. rewrite Hl. cbn [negb andb].
    rewrite andb_false_r. now left.
  - rewrite skipn_app, skipn_all2 in Hr |- * by lia. cbn [app] in Hr |- *.
    assert (Hall : forallb is_space (lt :: ws) = true).
    { cbn [forallb]. now rewrite (line_terminator_is_space _ Hl). }
    apply (forallb_skipn _ _ (5 + m + k - length a)) in Hall.
    rewrite (spaces_not_starting _ Hall Hr). now right.
Qed.

Lemma padBlock_app (a b : str) :
  padBlock (a ++ b)
  = padBlock a ++ flat_map (fun c => if N.eqb c LF then [LF; TAB] else [c]) b.
Proof. unfold padBlock. now rewrite flat_map_app. Qed.

(** X9. A fragment that ends with a line terminator, or with a line
    terminator and white space behind it, makes the rewrite throw, whatever
    stands in front: the WHERE pattern has to reach the end of the text and
    its condition cannot cross a line terminator.  So [getCypher] returns the
    fallback for every rendered subquery that ends with a line break. *)
Theorem line_terminator_at_end_throws (a ws : str) (lt : char) :
  is_line_terminator lt = true -> forallb is_space ws = true ->
  transformCypherQuery (a ++ lt :: ws) = noWhereClause
  /\ getCypher (a ++ [lt]) = fallback (padBlock (a ++ [lt])).
Proof.
  intros Hl Hws.
  assert (T : forall b ws', forallb is_space ws' = true ->
                            transformCypherQuery (b ++ lt :: ws')
                            = noWhereClause).
  { intros b ws' Hws'. apply transformCypherQuery_no_clause.
    destruct (stripMatch_suffix (b ++ lt :: ws')) as (n & ->).
    apply whereClause_none. intros k. rewrite skipn_skipn.
    now apply whereCondition_before_line_end. }
  split; [now apply T|].
  unfold getCypher. rewrite padBlock_app. cbn [flat_map app].
  destruct (N.eqb lt LF) eqn:E.
  - apply N.eqb_eq in E. subst lt. cbn [app].
    now rewrite (T (padBlock a) [TAB] eq_refl).
  - cbn [app]. now rewrite (T (padBlock a) [] eq_refl).
Qed.

Lemma line_terminator_at_end_throws_witness :
  transformCypherQuery (codes "MATCH (n:Person) WHERE n.a = 1" ++ CR :: [LF])
  = noWhereClause
  /\ getCypher (codes "MATCH (n:Person) WHERE n.a = 1" ++ [CR])
     = fallback (padBlock (codes "MATCH (n:Person) WHERE n.a = 1" ++ [CR])).
Proof.
  apply (@line_terminator_at_end_throws
           (codes "MATCH (n:Person) WHERE n.a = 1") [LF] CR); reflexivity.
Defined.

(** ** One node and a conjunction of equalities *)

Lemma propertiesOf_conjunction (e : Equality) (more : list (str * Equality)) :
  well_formed e = true ->
  forallb (fun x => is_and_separator (fst x) && well_formed (snd x)) more
  = true ->
  propertiesOf (parseConditions (conjunction e more)) = propertiesText e more.
Proof.
  intros He Hmore. unfold propertiesOf, parseConditions, propertiesText.
  rewrite split_conjunction by assumption.
  cbn [map]. rewrite join_cons, !map_map, flat_map_map.
  f_equal.
  - rewrite parseCondition_well_formed by exact He.
    apply propertyEntry_single.
  - apply flat_map_in_ext. intros [sp e0] Hx. cbn [snd]. f_equal.
    rewrite forallb_forall in Hmore. specialize (Hmore _ Hx).
    cbn [fst snd] in Hmore. apply andb_true_iff in Hmore.
    rewrite parseCondition_well_formed by apply Hmore.
    apply propertyEntry_single.
Qed.

Lemma conjunction_nonempty (e : Equality) (more : list (str * Equality)) :
  well_formed e = true -> conjunction e more <> [].
Proof.
  intros H. unfold conjunction.
  destruct (joined_head (equalityText e)
              (map (fun x => (fst x, equalityText (snd x))) more)) as (t & ->).
  destruct (@equalityText_head e t H) as (c & u & -> & _). discriminate.
Qed.

Lemma padBlock_fragment (q : MatchWhere) :
  match_where q = true -> forallb (is_not_char LF) (fragmentText q) = true ->
  padBlock (fragmentText q) = fragmentText (indented q)
  /\ match_where (indented q) = true.
Proof.
  intros H Hl. split; [now apply padBlock_line|exact H].
Qed.

(** X10. For a subquery that renders to one line
    [MATCH (n:Label) WHERE condition] (the keywords in any letter case and
    followed by white space, any white space but line terminators between
    the parts, variable name and label of word characters, the name possibly
    missing), where the condition, read without one opening parenthesis at
    its start and one closing parenthesis at its end if it has them, is a
    conjunction [x.a = v1 AND x.b = v2 AND ...] whose aliases and property
    names have no white space and no equals sign, whose names have no dot
    and whose values are not empty, have no white space and no equals sign
    and are not the word AND in any letter case: [getCypher] returns
    [EXISTS (], a line feed, [(:Label { a: v1, b: v2, ... })] with the white
    space that stood in front of WHERE, a line feed and [)], provided the
    properties body has no [$] followed by a character that makes a
    replacement pattern of it and no opening parenthesis.  The body is written out: [a: v1], then
    [, b: v2] for each further condition. *)
Theorem getCypher_single_node
        (q : MatchWhere) (n label ws : str)
        (e : Equality) (more : list (str * Equality)) :
  match_where q = true -> forallb (is_not_char LF) (fragmentText q) = true ->
  patternPart q = LPAREN :: n ++ COLON :: label ++ RPAREN :: ws ->
  forallb is_word n = true -> label <> [] -> forallb is_word label = true ->
  forallb is_space ws = true ->
  forallb is_dot (conditionPart q) = true ->
  conditionText (conditionPart q) = conjunction e more ->
  well_formed e = true ->
  forallb (fun x => is_and_separator (fst x) && well_formed (snd x)) more
  = true ->
  plain_template (propertiesText e more) = true ->
  forallb (is_not_char LPAREN) (propertiesText e more) = true ->
  getCypher (fragmentText q)
  = codes "EXISTS (" ++ [LF] ++ codes "(:" ++ label ++ codes " { "
    ++ propertiesText e more ++ codes " })" ++ ws ++ [LF] ++ codes ")".
Proof.
  intros H Hl Hp Wn Hne Wl Hws Hd Hc He Hmore Ht Ho.
  destruct (@padBlock_fragment q H Hl) as [Epad H'].
  destruct (where_fragment _ H') as [Hq Hw].
  cbn [indented patternPart whereWord whereSpace conditionPart] in Hq, Hw.
  rewrite Hd, Hc in Hw.
  pose proof (stripMatch_fragment _ H') as Es.
  cbn [indented patternPart whereWord whereSpace conditionPart] in Es.
  pose proof (@transformCypherQuery_at _ _ _ _ Es Hq Hw
                (@conjunction_nonempty e more He)) as T.
  rewrite (@propertiesOf_conjunction e more He Hmore), Hp in T.
  assert (Hinject : injectProperties (propertiesText e more)
                      (LPAREN :: n ++ COLON :: label ++ RPAREN :: ws)
                    = LPAREN :: n ++ COLON :: label ++ codes " { "
                      ++ propertiesText e more ++ codes " }" ++ RPAREN :: ws).
  { change (LPAREN :: n ++ COLON :: label ++ RPAREN :: ws)
      with ((LPAREN :: n) ++ COLON :: label ++ [] ++ RPAREN :: ws).
    rewrite injectProperties_marker.
    - rewrite (@expand_plain_template _ _ _ _ _ _ Ht).
      cbn [app]. rewrite <- !app_assoc. reflexivity.
    - apply quiet_class with (p := is_not_char COLON).
      + intros c u. apply labelMarker_first.
      + cbn [forallb]. word_marks COLON. reflexivity.
    - now apply labelMarker_word. }
  assert (Hplain : forallb (is_not_char LPAREN)
                     (COLON :: label ++ codes " { " ++ propertiesText e more
                      ++ codes " }" ++ RPAREN :: ws) = true).
  { cbn [forallb]. repeat (rewrite ?forallb_app; cbn [forallb app codes]).
    word_marks LPAREN. rewrite Ho.
    rewrite (@forallb_weaken _ is_space (is_not_char LPAREN) ws); auto.
    intros c Hc'. char_facts. }
  assert (Hnames : removeVariableNames
                     (LPAREN :: n ++ COLON :: label ++ codes " { "
                      ++ propertiesText e more ++ codes " }" ++ RPAREN :: ws)
                   = LPAREN :: COLON :: label ++ codes " { "
                     ++ propertiesText e more ++ codes " }" ++ RPAREN :: ws).
  { rewrite removeVariableNames_dropNames. destruct n as [|c n'].
    - cbn [app dropNames].
      change (variableReference (LPAREN :: COLON :: ?t)) with (@None nat).
      cbv iota. now rewrite dropNames_plain.
    - assert (Hn : c :: n' <> []) by discriminate.
      rewrite (@dropNames_here _ _ (@variableReference_name (c :: n') _ Hn Wn)).
      change (skipn (1 + length (c :: n') + 1)
                (LPAREN :: (c :: n') ++ COLON :: ?t))
        with (skipn (length (c :: n') + 1) ((c :: n') ++ COLON :: t)).
      rewrite skipn_app, skipn_all2 by lia.
      replace (length (c :: n') + 1 - length (c :: n')) with 1 by lia.
      cbn [app skipn]. rewrite dropNames_plain; [reflexivity|].
      simpl in Hplain. exact Hplain. }
  rewrite Hinject, Hnames in T.
  unfold getCypher. rewrite Epad, T. cbn [app codes].
  rewrite <- !app_assoc. reflexivity.
Qed.

Lemma getCypher_single_node_witness :
  getCypher (codes "match" ++ [SPACE; SPACE] ++ codes "(this0:Movie)  "
             ++ codes "Where" ++ [SPACE]
             ++ codes "(this0.title = $param0 and this0.year=$param1 AND this0.n = 3)")
  = codes "EXISTS (" ++ [LF]
    ++ codes "(:Movie { title: $param0, year: $param1, n: 3 })  " ++ [LF]
    ++ codes ")".
Proof.
  apply (@getCypher_single_node
           (mkMatchWhere [] (codes "match") [SPACE; SPACE]
              (codes "(this0:Movie)  ") (codes "Where") [SPACE]
              (codes "(this0.title = $param0 and this0.year=$param1 AND this0.n = 3)"))
           (codes "this0") (codes "Movie") [SPACE; SPACE]
           (mkEquality (codes "this0") (codes "title") [SPACE] [SPACE]
              (codes "$param0"))
           [(codes " and ",
             mkEquality (codes "this0") (codes "year") [] [] (codes "$param1"));
            (codes " AND ",
             mkEquality (codes "this0") (codes "n") [SPACE] [SPACE] (codes "3"))]);
    (discriminate || reflexivity).
Defined.

(** ** Line 93: what is left after the variable names are removed *)

Lemma dropNames_head (c : char) (t : str) :
  exists u, dropNames 0 (c :: t) = c :: u.
Proof.
  cbn [dropNames]. destruct (variableReference (c :: t)) as [len|] eqn:E.
  - unfold variableReference in E.
    destruct (starts_with [is_char LPAREN] (c :: t)) eqn:S; [|discriminate].
    rewrite starts_with_1 in S. apply N.eqb_eq in S. subst c.
    eexists; reflexivity.
  - eexists; reflexivity.
Qed.

(** The removal keeps a run of word characters at the start of a text, and
    the character behind it. *)
Lemma dropNames_run (t : str) :
  run is_word (dropNames 0 t) = run is_word t
  /\ starts_with [is_char COLON] (skipn (run is_word t) (dropNames 0 t))
     = starts_with [is_char COLON] (skipn (run is_word t) t).
Proof.
  induction t as [|d t IH]; [split; reflexivity|].
  destruct (dropNames_head d t) as (u & Eu).
  destruct (is_word d) eqn:W.
  - assert (N : variableReference (d :: t) = None).
    { apply variableReference_first. unfold is_not_char.
      now rewrite (@word_not_char LPAREN d W) by (simpl; tauto). }
    cbn [dropNames]. rewrite N. cbn [run]. rewrite W.
    destruct IH as [IH1 IH2]. rewrite IH1. split; [reflexivity|exact IH2].
  - rewrite Eu. cbn [run]. rewrite W. split; [reflexivity|].
    cbn [skipn]. now rewrite !starts_with_1.
Qed.

Lemma variableReference_dropNames (c : char) (t : str) :
  variableReference (c :: dropNames 0 t) = variableReference (c :: t).
Proof.
  unfold variableReference. cbn [skipn]. rewrite !starts_with_1.
  destruct (dropNames_run t) as [E1 E2]. rewrite E1.
  change (skipn (1 + run is_word t) (c :: dropNames 0 t))
    with (skipn (run is_word t) (dropNames 0 t)).
  change (skipn (1 + run is_word t) (c :: t))
    with (skipn (run is_word t) t).
  now rewrite E2.
Qed.

Lemma dropNames_no_reference_aux (n : nat) :
  forall s k, length s <= n ->
              variableReference (skipn k (dropNames 0 s)) = None.
Proof.
  induction n as [|n IH]; intros s k L.
  - destruct s; [|simpl in L; lia]. now destruct k.
  - destruct s as [|c t]; [now destruct k|]. simpl in L.
    destruct (variableReference (c :: t)) as [len|] eqn:E.
    + rewrite (dropNames_here _ E).
      destruct (variableReference_positive _ E) as [H2 _].
      destruct k as [|[|k]]; [reflexivity|reflexivity|].
      cbn [skipn]. apply IH. rewrite length_skipn. cbn [length]. lia.
    + cbn [dropNames]. rewrite E. destruct k as [|k].
      * cbn [skipn]. now rewrite variableReference_dropNames.
      * cbn [skipn]. apply IH. lia.
Qed.

Lemma dropNames_no_reference (s : str) (k : nat) :
  variableReference (skipn k (dropNames 0 s)) = None.
Proof. now apply (@dropNames_no_reference_aux (length s)). Qed.

(** X11. What line 93 returns has no node reference with a variable name
    left: nowhere in it an opening parenthesis is followed by word characters
    and a colon.  So the removal is idempotent, and no fragment that the
    rewrite returns has such a reference. *)
Theorem no_variable_name_left (transformed : str) :
  (forall a v b, v <> [] -> forallb is_word v = true ->
                 removeVariableNames transformed
                 <> a ++ LPAREN :: v ++ COLON :: b)
  /\ removeVariableNames (removeVariableNames transformed)
     = removeVariableNames transformed
  /\ (forall cypherFragment out a v b,
         transformCypherQuery cypherFragment = inl out ->
         v <> [] -> forallb is_word v = true ->
         out <> a ++ LPAREN :: v ++ COLON :: b).
Proof.
  assert (F : forall s a v b,
             v <> [] -> forallb is_word v = true ->
             removeVariableNames s <> a ++ LPAREN :: v ++ COLON :: b).
  { intros s a v b Hne Hv E.
    pose proof (dropNames_no_reference s (length a)) as N.
    rewrite <- removeVariableNames_dropNames, E in N.
    rewrite skipn_length_app in N by reflexivity.
    now rewrite variableReference_name in N. }
  split; [apply F|]. split.
  - rewrite (removeVariableNames_dropNames (removeVariableNames transformed)).
    apply dropNames_fixed. intros k. rewrite removeVariableNames_dropNames.
    apply dropNames_no_reference.
  - intros cypherFragment out a v b H Hne Hv.
    destruct (transformCypherQuery_steps _ H)
      as (i & y & whereText & _ & _ & _ & ->).
    now apply F.
Qed.

Example no_variable_name_left_in_path :
  removeVariableNames (codes "((a:A)-[r:R]->(b1:B)<-[:S]-(c_:`C d`)")
  = codes "((:A)-[r:R]->(:B)<-[:S]-(:`C d`)".
Proof. vm_compute. reflexivity. Qed.

Lemma variableReference_shape (s : str) (len : nat) :
  variableReference s = Some len ->
  exists v b, v <> [] /\ forallb is_word v = true
              /\ s = LPAREN :: v ++ COLON :: b.
Proof.
  unfold variableReference. intros H.
  destruct (starts_with [is_char LPAREN] s) eqn:S0; [|discriminate].
  destruct (1 <=? run is_word (skipn 1 s)) eqn:S1; [|discriminate].
  destruct (starts_with [is_char COLON]
              (skipn (1 + run is_word (skipn 1 s)) s)) eqn:S2; [|discriminate].
  apply starts_with_char in S0. destruct S0 as (t & ->).
  cbn [skipn] in *. apply Nat.leb_le in S1.
  change (skipn (1 + run is_word t) (LPAREN :: t))
    with (skipn (run is_word t) t) in S2.
  apply starts_with_char in S2. destruct S2 as (b & Eb).
  exists (firstn (run is_word t) t), b. split; [|split].
  - intros E. apply (f_equal (@length char)) in E.
    rewrite length_firstn in E. pose proof (run_le is_word t). simpl in E.
    lia.
  - apply run_firstn.
  - f_equal. rewrite <- Eb. symmetry. apply firstn_skipn.
Qed.

(** X12. Line 93 changes a text if and only if the text has a node reference
    with a variable name, an opening parenthesis followed by word characters
    and a colon: everything else, a relationship variable in brackets or a
    node without label, is returned as it is. *)
Theorem variable_names_removed_only (transformed : str) :
  removeVariableNames transformed = transformed
  <-> ~ (exists a v b, v <> [] /\ forallb is_word v = true
                       /\ transformed = a ++ LPAREN :: v ++ COLON :: b).
Proof.
  split.
  - intros E (a & v & b & Hne & Hv & Et).
    pose proof (dropNames_no_reference transformed (length a)) as N.
    rewrite <- removeVariableNames_dropNames, E, Et in N.
    rewrite skipn_length_app in N by reflexivity.
    now rewrite variableReference_name in N.
  - intros H. rewrite removeVariableNames_dropNames. apply dropNames_fixed.
    intros k. destruct (variableReference (skipn k transformed)) as [len|] eqn:E;
      [|reflexivity].
    exfalso. apply H. destruct (variableReference_shape _ E) as (v & b & Hne & Hv & Es).
    exists (firstn k transformed), v, b. split; [exact Hne|]. split; [exact Hv|].
    rewrite <- Es. symmetry. apply firstn_skipn.
Qed.

(** ** Lines 70-75: conditions that are not one equality *)

Lemma split_nonempty (r : regex) (s : str) :
  s <> [] -> split r s = split_loop (2 * length s + 1) r [] 0 s.
Proof. destruct s; [contradiction|reflexivity]. Qed.

Lemma equalsSeparator_at (ws t : str) :
  forallb is_space ws = true ->
  equalsSeparator (ws ++ EQUALS :: t)
  = Some (length ws + (1 + run is_space t)).
Proof.
  intros H. unfold equalsSeparator.
  rewrite run_app_stop, (@run_all _ _ H) by reflexivity.
  rewrite skipn_length_app by reflexivity. rewrite starts_with_1.
  change (is_char EQUALS EQUALS) with true. cbv iota.
  change (ws ++ EQUALS :: t) with (ws ++ [EQUALS] ++ t).
  rewrite app_assoc, skipn_length_app by (rewrite length_app; reflexivity).
  reflexivity.
Qed.

Lemma quiet_equals_plain (a t : str) :
  forallb is_plain a = true -> quiet equalsSeparator a t.
Proof.
  apply quiet_class. intros c u Hc.
  apply equalsSeparator_first;
    [now apply plain_not_space|now apply plain_not_equals].
Qed.

(** The first two pieces of a text with two equals signs. *)
Lemma split_second_equals (k ws1 ws2 v ws3 more : str) :
  forallb is_plain k = true -> forallb is_space ws1 = true ->
  forallb is_space ws2 = true -> forallb is_plain v = true -> v <> [] ->
  forallb is_space ws3 = true ->
  exists pieces,
    split equalsRegEx
          (k ++ ws1 ++ [EQUALS] ++ ws2 ++ v ++ ws3 ++ [EQUALS] ++ more)
    = k :: v :: pieces.
Proof.
  intros Hk H1 H2 Hv Hne H3.
  set (t2 := ws3 ++ [EQUALS] ++ more).
  set (t1 := ws1 ++ [EQUALS] ++ ws2 ++ v ++ t2).
  assert (Hs : starts_with [is_space] (v ++ t2) = false).
  { destruct v as [|c v]; [contradiction|]. cbn [app].
    rewrite starts_with_1. simpl in Hv. apply andb_true_iff in Hv.
    now apply plain_not_space. }
  assert (E1 : equalsSeparator t1 = Some (length ws1 + (1 + length ws2))).
  { unfold t1. cbn [app]. rewrite (@equalsSeparator_at ws1 _ H1).
    now rewrite (@run_white ws2 (v ++ t2) H2 Hs). }
  assert (S1 : skipn (length ws1 + (1 + length ws2)) t1 = v ++ t2).
  { unfold t1. rewrite (app_assoc ws1), (app_assoc (ws1 ++ [EQUALS])).
    apply skipn_length_app. rewrite !length_app. cbn [length]. lia. }
  assert (E2 : equalsSeparator t2
               = Some (length ws3 + (1 + run is_space more))).
  { unfold t2. cbn [app]. now apply equalsSeparator_at. }
  assert (N1 : t1 <> []).
  { unfold t1. destruct ws1; discriminate. }
  assert (N2 : t2 <> []).
  { unfold t2. destruct ws3; discriminate. }
  rewrite split_nonempty.
  2:{ intros E. apply app_eq_nil in E. destruct E as [_ E]. now apply N1. }
  fold t2. fold t1.
  set (fuel := 2 * length (k ++ t1) + 1).
  assert (F : length k + length t1 + 2 <= fuel).
  { unfold fuel. rewrite length_app.
    destruct t1; [contradiction|]. simpl. lia. }
  assert (L1 : length v + length t2 < length t1).
  { unfold t1. rewrite !length_app. cbn [length]. lia. }
  rewrite (@split_loop_quiet _ _ match_at_equalsRegEx k [] 0 fuel t1
             (@quiet_equals_plain k t1 Hk)) by lia.
  destruct (fuel - length k) as [|fuel1] eqn:F1; [lia|].
  rewrite (@split_loop_sep _ _ match_at_equalsRegEx equalsSeparator_positive
             ([] ++ k) (0 + length k) fuel1 t1 _ E1 N1).
  rewrite S1.
  rewrite (@split_loop_quiet _ _ match_at_equalsRegEx v [] _ fuel1 t2
             (@quiet_equals_plain v t2 Hv)) by lia.
  destruct (fuel1 - length v) as [|fuel2] eqn:F2; [lia|].
  rewrite (@split_loop_sep _ _ match_at_equalsRegEx equalsSeparator_positive
             ([] ++ v) _ fuel2 t2 _ E2 N2).
  eexists. reflexivity.
Qed.

(** X13. Of a condition with two equals signs only the text in front of the
    second is used: the key is the name in front of the first equals sign
    and the value the text between the two; what follows the second equals
    sign is dropped. *)
Theorem text_behind_second_equals_dropped
        (al nm ws1 ws2 v ws3 more : str) :
  forallb is_plain al = true -> forallb is_name nm = true ->
  forallb is_space ws1 = true -> forallb is_space ws2 = true ->
  forallb is_plain v = true -> v <> [] -> forallb is_space ws3 = true ->
  parseCondition (al ++ [DOT] ++ nm ++ ws1 ++ [EQUALS] ++ ws2 ++ v
                  ++ ws3 ++ [EQUALS] ++ more)
  = [(nm, v)]
  /\ propertyEntry
       (parseCondition (al ++ [DOT] ++ nm ++ ws1 ++ [EQUALS] ++ ws2 ++ v
                        ++ ws3 ++ [EQUALS] ++ more))
     = nm ++ codes ": " ++ v.
Proof.
  intros Hal Hnm H1 H2 Hv Hne H3.
  assert (Hnm' : forallb is_plain nm = true) by now apply name_is_plain.
  assert (Hdot : forallb (is_not_char DOT) nm = true).
  { revert Hnm. apply forallb_weaken. unfold is_name. intros a Ha.
    now apply andb_true_iff in Ha. }
  assert (Hk : forallb is_plain (al ++ [DOT] ++ nm) = true).
  { rewrite !forallb_app, Hal, Hnm'. reflexivity. }
  destruct (@split_second_equals _ ws1 ws2 v ws3 more Hk H1 H2 Hv Hne H3)
    as (pieces & S2).
  assert (P : parseCondition (al ++ [DOT] ++ nm ++ ws1 ++ [EQUALS] ++ ws2
                              ++ v ++ ws3 ++ [EQUALS] ++ more)
              = [(nm, v)]).
  { unfold parseCondition. rewrite <- !app_assoc in S2. rewrite S2.
    cbn [nth_error]. change ([DOT] ++ nm) with (DOT :: nm).
    now rewrite pop_split_on_alias. }
  split; [exact P|]. rewrite P. apply propertyEntry_single.
Qed.

Lemma text_behind_second_equals_dropped_witness :
  parseCondition (codes "n.a = 1 = 2") = [(codes "a", codes "1")]
  /\ propertyEntry (parseCondition (codes "n.a = 1 = 2")) = codes "a: 1".
Proof.
  apply (@text_behind_second_equals_dropped (codes "n") (codes "a") [SPACE]
           [SPACE] (codes "1") [SPACE] (codes " 2"));
    (discriminate || reflexivity).
Defined.

Lemma parseCondition_name (p : str) :
  forallb is_name p = true -> parseCondition p = [(p, [])].
Proof.
  intros H. unfold parseCondition.
  rewrite split_without_equals.
  - cbn [nth_error]. rewrite split_on_plain; [reflexivity|].
    revert H. apply forallb_weaken. unfold is_name. intros a Ha.
    now apply andb_true_iff in Ha.
  - apply name_is_plain in H. revert H. apply forallb_weaken.
    unfold is_plain. intros a Ha. now apply andb_true_iff in Ha.
Qed.

(** X14. The text is cut at every word AND between white space, also where
    the word belongs to a value, as inside a quoted string: the text behind
    it is read as a condition of its own and, having no equals sign, becomes
    a key with an empty value. *)
Theorem value_cut_at_and (e : Equality) (sp p : str) :
  well_formed e = true -> is_and_separator sp = true ->
  p <> [] -> forallb is_name p = true ->
  parseConditions (equalityText e ++ sp ++ p) = [[(name e, value e)]; [(p, [])]]
  /\ propertiesOf (parseConditions (equalityText e ++ sp ++ p))
     = name e ++ codes ": " ++ value e ++ codes ", " ++ p ++ codes ": ".
Proof.
  intros He Hsp Hne Hp.
  assert (Hpl : forallb is_plain p = true) by now apply name_is_plain.
  assert (S2 : split andRegEx (equalityText e ++ sp ++ p)
               = [equalityText e; p]).
  { apply split_two with (sep := andSeparator).
    - apply match_at_andRegEx.
    - apply andSeparator_positive.
    - now apply is_and_separator_nonempty.
    - reflexivity.
    - apply condition_quiet; [exact He|]. left.
      apply starts_with_prefix. now apply is_and_separator_space.
    - destruct p as [|c u]; [contradiction|]. apply andSeparator_app; auto.
      simpl in Hpl. apply andb_true_iff in Hpl. now apply plain_not_space.
    - apply quiet_class with (p := is_plain); [|exact Hpl].
      intros c u Hc. apply andSeparator_first. now apply plain_not_space. }
  assert (P : parseConditions (equalityText e ++ sp ++ p)
              = [[(name e, value e)]; [(p, [])]]).
  { unfold parseConditions. rewrite S2. cbn [map].
    now rewrite (@parseCondition_well_formed _ He), (@parseCondition_name _ Hp). }
  split; [exact P|]. rewrite P. unfold propertiesOf. cbn [map join].
  rewrite !propertyEntry_single. rewrite <- !app_assoc. reflexivity.
Qed.

Lemma value_cut_at_and_witness :
  propertiesOf (parseConditions (codes "n.title = 'Tom AND Jerry'"))
  = codes "title: 'Tom, Jerry': ".
Proof.
  apply (@value_cut_at_and
           (mkEquality (codes "n") (codes "title") [SPACE] [SPACE]
              (codes "'Tom"))
           (codes " AND ") (codes "Jerry'"));
    (discriminate || reflexivity).
Defined.

(** * The returned fragment as a whole *)

(** ** Line 93 on a whole text *)









(** ** Lines 88-93: where the properties stand in the rewritten fragment *)






